(** * A shallow embedding of [main.cpp] (OpenGL shadow-mapped scene)

    The development follows the translation unit [proiect_PG_v1/main.cpp]:

    - [F32], [F64]: IEEE-754 binary32 / binary64 arithmetic (C++ [float] and
      [double]), taken from the Standard Library's executable specification
      [SpecFloat], round-to-nearest-even.
    - [glm]: the vector and matrix types of GLM and the scalar reference
      implementation of the GLM functions whose results the light-direction
      and marker-position properties evaluate.
    - [Libm], [GlmExt], [CameraClass]: interfaces for code that is not part of
      the translation unit (libm, the remaining GLM functions, [gps::Camera]).
    - The global variables of the program ([Globals]), the window, the part of
      the OpenGL state machine the program relies on ([GLState]) and the
      sequence of calls the program issues ([Call]).
    - The functions of [main.cpp], written in a small state-and-log monad so
      that each definition reads like the C++ function it embeds.
    - The properties. *)

From Stdlib Require Import ZArith Lia Bool List String DecimalString.
From Stdlib Require Import Floats.SpecFloat.
From stdpp Require Import base list.

Open Scope Z_scope.

(** ** Floating point *)

(** C++ [float]: IEEE-754 binary32. *)
Module F32.
Definition prec : Z := 24.
Definition emax : Z := 128.
Definition t : Type := spec_float.

Definition add : t -> t -> t := SFadd prec emax.
Definition sub : t -> t -> t := SFsub prec emax.
Definition mul : t -> t -> t := SFmul prec emax.
Definition div : t -> t -> t := SFdiv prec emax.
Definition sqrt : t -> t := SFsqrt prec emax.
Definition opp : t -> t := SFopp.
Definition ltb : t -> t -> bool := SFltb.
Definition leb : t -> t -> bool := SFleb.

(** The literal of an integer-valued constant, e.g. [1.0f], [89.0f]. *)
Definition of_Z (n : Z) : t := binary_normalize prec emax n 0 false.

(** The literal of the decimal constant [n/d] (correctly rounded), e.g.
    [0.1f] is [of_ratio 1 10]. *)
Definition of_ratio (n d : positive) : t :=
  div (S754_finite false n 0) (S754_finite false d 0).

Definition zero : t := S754_zero false.
Definition one : t := of_Z 1.
End F32.

(** C++ [double]: IEEE-754 binary64. *)
Module F64.
Definition prec : Z := 53.
Definition emax : Z := 1024.
Definition t : Type := spec_float.

Definition sub : t -> t -> t := SFsub prec emax.
Definition of_Z (n : Z) : t := binary_normalize prec emax n 0 false.
End F64.

(** Conversion of a value into the format [prec], [emax] as IEEE-754
    hardware does it: zeros, infinities and NaN are kept, a finite value is
    rounded to nearest even, and a value beyond the range becomes an
    infinity. *)
Definition convert (prec emax : Z) (x : spec_float) : spec_float :=
  match x with
  | S754_finite s m e => binary_normalize prec emax (cond_Zopp s (Zpos m)) e s
  | _ => x
  end.

(** [(float) d] and the implicit promotion [float -> double]. *)
Definition double_to_float : F64.t -> F32.t := convert F32.prec F32.emax.
Definition float_to_double : F32.t -> F64.t := convert F64.prec F64.emax.

(** The binary32 number of sign [s] and integer magnitude [p < 2^24], in
    canonical form: the mantissa has 24 digits. *)
Definition int_float (s : bool) (p : positive) : spec_float :=
  let d := Zpos (digits2_pos p) in
  S754_finite s (Z.to_pos (Zpos p * 2 ^ (24 - d))) (d - 24).

Declare Scope f32_scope.
Delimit Scope f32_scope with f32.
Bind Scope f32_scope with F32.t.
Infix "+" := F32.add : f32_scope.
Infix "-" := F32.sub : f32_scope.
Infix "*" := F32.mul : f32_scope.
Infix "/" := F32.div : f32_scope.
Notation "- x" := (F32.opp x) : f32_scope.

(** Neither NaN nor an infinity. *)
Definition is_finite (x : spec_float) : bool :=
  match x with
  | S754_zero _ | S754_finite _ _ _ => true
  | _ => false
  end.

Definition is_nan (x : spec_float) : bool :=
  match x with
  | S754_nan => true
  | _ => false
  end.

(** ** libm *)

(** [cos], [sin] and [tan] of [<cmath>] at type [float]; their code is not
    part of the program. *)
Class Libm := {
  cosf : F32.t -> F32.t;
  sinf : F32.t -> F32.t;
  tanf : F32.t -> F32.t;
}.

(** What every IEEE-conforming libm returns at [+0] (C11 Annex F.10.1). *)
Definition libm_exact_at_zero `{Libm} : Prop :=
  cosf F32.zero = F32.one /\ sinf F32.zero = F32.zero.

(** ** GLM *)

Module glm.
Record vec3 := Vec3 { x3 : F32.t; y3 : F32.t; z3 : F32.t }.
Record vec4 := Vec4 { x4 : F32.t; y4 : F32.t; z4 : F32.t; w4 : F32.t }.
(** Matrices are column-major: [m[i]] is column [i]. *)
Record mat3 := Mat3 { m3c0 : vec3; m3c1 : vec3; m3c2 : vec3 }.
Record mat4 := Mat4 { c0 : vec4; c1 : vec4; c2 : vec4; c3 : vec4 }.

Local Open Scope f32_scope.

(** [glm::vec3(s)], [glm::vec4(s)] *)
Definition splat3 (s : F32.t) : vec3 := Vec3 s s s.
Definition splat4 (s : F32.t) : vec4 := Vec4 s s s s.

(** [glm::vec3(v4)]: drops [w]. *)
Definition vec3_of_vec4 (v : vec4) : vec3 := Vec3 (x4 v) (y4 v) (z4 v).

(** [v * s], [s * v] on [vec3]; [v * s] and [a + b] on [vec4]. *)
Definition scale3 (v : vec3) (s : F32.t) : vec3 :=
  Vec3 (x3 v * s) (y3 v * s) (z3 v * s).
Definition scale3_l (s : F32.t) (v : vec3) : vec3 :=
  Vec3 (s * x3 v) (s * y3 v) (s * z3 v).
Definition mul3 (a b : vec3) : vec3 :=
  Vec3 (x3 a * x3 b) (y3 a * y3 b) (z3 a * z3 b).
Definition scale4 (v : vec4) (s : F32.t) : vec4 :=
  Vec4 (x4 v * s) (y4 v * s) (z4 v * s) (w4 v * s).
Definition mul4 (a b : vec4) : vec4 :=
  Vec4 (x4 a * x4 b) (y4 a * y4 b) (z4 a * z4 b) (w4 a * w4 b).
Definition add4 (a b : vec4) : vec4 :=
  Vec4 (x4 a + x4 b) (y4 a + y4 b) (z4 a + z4 b) (w4 a + w4 b).
Definition add3 (a b : vec3) : vec3 :=
  Vec3 (x3 a + x3 b) (y3 a + y3 b) (z3 a + z3 b).
Definition sub3 (a b : vec3) : vec3 :=
  Vec3 (x3 a - x3 b) (y3 a - y3 b) (z3 a - z3 b).

(** [glm::mat4(1.0f)] and the zero matrices of static storage. *)
Definition identity : mat4 :=
  Mat4 (Vec4 F32.one F32.zero F32.zero F32.zero)
       (Vec4 F32.zero F32.one F32.zero F32.zero)
       (Vec4 F32.zero F32.zero F32.one F32.zero)
       (Vec4 F32.zero F32.zero F32.zero F32.one).
Definition mat4_zero : mat4 :=
  Mat4 (splat4 F32.zero) (splat4 F32.zero) (splat4 F32.zero) (splat4 F32.zero).
Definition mat3_zero : mat3 :=
  Mat3 (splat3 F32.zero) (splat3 F32.zero) (splat3 F32.zero).

(** [glm::mat3(m4)]: the upper-left 3x3 block. *)
Definition mat3_of_mat4 (m : mat4) : mat3 :=
  Mat3 (vec3_of_vec4 (c0 m)) (vec3_of_vec4 (c1 m)) (vec3_of_vec4 (c2 m)).

(** [glm::radians]: [degrees * 0.01745329251994329576923690768489f]. *)
Definition deg2rad : F32.t :=
  F32.of_ratio 1745329251994329576923690768489
               100000000000000000000000000000000.
Definition radians (degrees : F32.t) : F32.t := degrees * deg2rad.

(** [glm::dot], [glm::inversesqrt], [glm::normalize] on [vec3]. *)
Definition dot (a b : vec3) : F32.t :=
  let tmp := mul3 a b in x3 tmp + y3 tmp + z3 tmp.
Definition inversesqrt (x : F32.t) : F32.t := F32.one / F32.sqrt x.
Definition normalize (v : vec3) : vec3 := scale3 v (inversesqrt (dot v v)).

(** [glm::cross] *)
Definition cross (a b : vec3) : vec3 :=
  Vec3 (y3 a * z3 b - y3 b * z3 a)
       (z3 a * x3 b - z3 b * x3 a)
       (x3 a * y3 b - x3 b * y3 a).

(** [m * v] for [mat4] and [vec4]. *)
Definition mul_vec4 (m : mat4) (v : vec4) : vec4 :=
  let Mul0 := mul4 (c0 m) (splat4 (x4 v)) in
  let Mul1 := mul4 (c1 m) (splat4 (y4 v)) in
  let Add0 := add4 Mul0 Mul1 in
  let Mul2 := mul4 (c2 m) (splat4 (z4 v)) in
  let Mul3 := mul4 (c3 m) (splat4 (w4 v)) in
  let Add1 := add4 Mul2 Mul3 in
  add4 Add0 Add1.

(** [m1 * m2] for [mat4]. *)
Definition mul_col (m1 : mat4) (b : vec4) : vec4 :=
  add4 (add4 (add4 (scale4 (c0 m1) (x4 b)) (scale4 (c1 m1) (y4 b)))
             (scale4 (c2 m1) (z4 b)))
       (scale4 (c3 m1) (w4 b)).
Definition mul (m1 m2 : mat4) : mat4 :=
  Mat4 (mul_col m1 (c0 m2)) (mul_col m1 (c1 m2))
       (mul_col m1 (c2 m2)) (mul_col m1 (c3 m2)).

(** [glm::rotate(m, angle, v)] *)
Definition rotate `{Libm} (m : mat4) (angle : F32.t) (v : vec3) : mat4 :=
  let a := angle in
  let c := cosf a in
  let s := sinf a in
  let axis := normalize v in
  let temp := scale3_l (F32.one - c) axis in
  let R00 := c + x3 temp * x3 axis in
  let R01 := x3 temp * y3 axis + s * z3 axis in
  let R02 := x3 temp * z3 axis - s * y3 axis in
  let R10 := y3 temp * x3 axis - s * z3 axis in
  let R11 := c + y3 temp * y3 axis in
  let R12 := y3 temp * z3 axis + s * x3 axis in
  let R20 := z3 temp * x3 axis + s * y3 axis in
  let R21 := z3 temp * y3 axis - s * x3 axis in
  let R22 := c + z3 temp * z3 axis in
  Mat4 (add4 (add4 (scale4 (c0 m) R00) (scale4 (c1 m) R01)) (scale4 (c2 m) R02))
       (add4 (add4 (scale4 (c0 m) R10) (scale4 (c1 m) R11)) (scale4 (c2 m) R12))
       (add4 (add4 (scale4 (c0 m) R20) (scale4 (c1 m) R21)) (scale4 (c2 m) R22))
       (c3 m).

(** [glm::translate(m, v)] *)
Definition translate (m : mat4) (v : vec3) : mat4 :=
  Mat4 (c0 m) (c1 m) (c2 m)
       (add4 (add4 (add4 (scale4 (c0 m) (x3 v)) (scale4 (c1 m) (y3 v)))
                   (scale4 (c2 m) (z3 v)))
             (c3 m)).

(** [glm::scale(m, v)] *)
Definition scale (m : mat4) (v : vec3) : mat4 :=
  Mat4 (scale4 (c0 m) (x3 v)) (scale4 (c1 m) (y3 v)) (scale4 (c2 m) (z3 v))
       (c3 m).
End glm.
Export glm.

(** The GLM functions the program uses only through their results. *)
Class GlmExt := {
  (** [glm::inverseTranspose] on [mat4] *)
  inverseTranspose : mat4 -> mat4;
  (** [glm::lookAt(eye, center, up)] *)
  lookAt : vec3 -> vec3 -> vec3 -> mat4;
  (** [glm::ortho(left, right, bottom, top, zNear, zFar)] *)
  ortho : F32.t -> F32.t -> F32.t -> F32.t -> F32.t -> F32.t -> mat4;
  (** [glm::perspective(fovy, aspect, zNear, zFar)] *)
  perspective : F32.t -> F32.t -> F32.t -> F32.t -> mat4;
}.

(** ** gps::Camera *)

Inductive MOVE_DIRECTION :=
  MOVE_FORWARD | MOVE_BACKWARD | MOVE_RIGHT | MOVE_LEFT | MOVE_UP | MOVE_DOWN.

(** The camera class of [Camera.hpp]; the program uses its constructor,
    [move], [rotate] and [getViewMatrix]. *)
Class CameraClass := {
  Camera : Type;
  Camera_new : vec3 -> vec3 -> vec3 -> Camera;
  Camera_move : Camera -> MOVE_DIRECTION -> F32.t -> Camera;
  Camera_rotate : Camera -> F32.t -> F32.t -> Camera;
  Camera_getViewMatrix : Camera -> mat4;
}.

(** ** GLFW constants ([glfw3.h]) *)

Definition GLFW_RELEASE : Z := 0.
Definition GLFW_PRESS : Z := 1.
Definition GLFW_REPEAT : Z := 2.

Definition GLFW_KEY_UNKNOWN : Z := -1.
Definition GLFW_KEY_SPACE : Z := 32.
Definition GLFW_KEY_1 : Z := 49.
Definition GLFW_KEY_2 : Z := 50.
Definition GLFW_KEY_3 : Z := 51.
Definition GLFW_KEY_4 : Z := 52.
Definition GLFW_KEY_A : Z := 65.
Definition GLFW_KEY_D : Z := 68.
Definition GLFW_KEY_E : Z := 69.
Definition GLFW_KEY_J : Z := 74.
Definition GLFW_KEY_L : Z := 76.
Definition GLFW_KEY_M : Z := 77.
Definition GLFW_KEY_Q : Z := 81.
Definition GLFW_KEY_S : Z := 83.
Definition GLFW_KEY_W : Z := 87.
Definition GLFW_KEY_ESCAPE : Z := 256.
Definition GLFW_KEY_LEFT_SHIFT : Z := 340.

(** The values of the input mode [GLFW_CURSOR]. *)
Inductive CursorMode :=
  GLFW_CURSOR_NORMAL | GLFW_CURSOR_HIDDEN | GLFW_CURSOR_DISABLED.

Definition CursorMode_eqb (a b : CursorMode) : bool :=
  match a, b with
  | GLFW_CURSOR_NORMAL, GLFW_CURSOR_NORMAL
  | GLFW_CURSOR_HIDDEN, GLFW_CURSOR_HIDDEN
  | GLFW_CURSOR_DISABLED, GLFW_CURSOR_DISABLED => true
  | _, _ => false
  end.

Definition EXIT_SUCCESS : Z := 0.
Definition EXIT_FAILURE : Z := 1.

(** ** The objects of the program and the calls it issues *)

(** The [gps::Shader] globals. *)
Inductive Shader := myBasicShader | lightShader | depthMapShader | skyboxShader.

(** The [gps::Model3D] globals. *)
Inductive Model3D := nanosuit | ground | lightCube.

Definition Shader_eqb (a b : Shader) : bool :=
  match a, b with
  | myBasicShader, myBasicShader | lightShader, lightShader
  | depthMapShader, depthMapShader | skyboxShader, skyboxShader => true
  | _, _ => false
  end.

(** The result of [glGetUniformLocation(shader.shaderProgram, name)]. *)
Record Location := Loc { loc_program : Shader; loc_name : string }.

Definition Location_eqb (a b : Location) : bool :=
  Shader_eqb (loc_program a) (loc_program b)
  && String.eqb (loc_name a) (loc_name b).

Inductive UniformValue :=
| UMat4 (m : mat4)     (* glUniformMatrix4fv *)
| UMat3 (m : mat3)     (* glUniformMatrix3fv *)
| UVec3 (v : vec3)     (* glUniform3fv *)
| UInt (i : Z).        (* glUniform1i *)

Inductive PolygonMode := GL_FILL | GL_LINE | GL_POINT.
Inductive Framebuffer := DefaultFramebuffer | shadowMapFBO.
Inductive Stream := Stdout | Stderr.

(** The calls into OpenGL, GLFW, the collaborators and the standard streams,
    in the order the program issues them. *)
Inductive Call :=
| UseProgram (s : Shader)                    (* shader.useShaderProgram() *)
| Uniform (l : Location) (v : UniformValue)  (* glUniform... *)
| Viewport (x y w h : Z)                     (* glViewport *)
| BindFramebuffer (f : Framebuffer)          (* glBindFramebuffer(GL_FRAMEBUFFER, f) *)
| Clear (color depth : bool)                 (* glClear *)
| PolygonModeCall (m : PolygonMode)          (* glPolygonMode(GL_FRONT_AND_BACK, m) *)
| ActiveTexture (unit : Z)                   (* glActiveTexture(GL_TEXTURE0 + unit) *)
| BindDepthMapTexture                        (* glBindTexture(GL_TEXTURE_2D, depthMapTexture) *)
| GLSetup (call : string)                    (* the other state-setting calls of initialisation *)
| Draw (m : Model3D) (s : Shader)            (* m.Draw(s) *)
| SkyBoxDraw (s : Shader) (v p : mat4)       (* mySkyBox.Draw(s, v, p) *)
| LoadModel (m : Model3D) (path : string)    (* m.LoadModel(path) *)
| LoadShader (s : Shader) (vert frag : string)
| SkyBoxLoad (faces : list string)
| CameraMove (d : MOVE_DIRECTION) (speed : F32.t)  (* myCamera.move *)
| CameraRotate (pitch yaw : F32.t)           (* myCamera.rotate *)
| WindowCreate (w h : Z) (title : string)    (* myWindow.Create *)
| WindowDelete                               (* myWindow.Delete *)
| SetCallbacks                               (* glfwSet...Callback, three of them *)
| SetInputMode (m : CursorMode)              (* glfwSetInputMode(window, GLFW_CURSOR, m) *)
| SetWindowShouldClose                       (* glfwSetWindowShouldClose(window, GL_TRUE) *)
| SwapBuffers
| Output (o : Stream) (text : string)        (* std::cout, std::cerr, fprintf *)
| ReportGLError (code : Z) (line : Z).       (* the line glCheckError_ prints *)

(** ** The OpenGL state the program relies on *)

Record GLState := {
  gl_program : option Shader;
  gl_viewport : Z * Z * Z * Z;
  gl_framebuffer : Framebuffer;
  gl_polygonMode : PolygonMode;
  gl_uniforms : Location -> option UniformValue;
}.

(** The state of a fresh context: no program, fill mode, default framebuffer. *)
Definition gl_initial : GLState :=
  {| gl_program := None; gl_viewport := (0, 0, 0, 0);
     gl_framebuffer := DefaultFramebuffer; gl_polygonMode := GL_FILL;
     gl_uniforms := fun _ => None |}.

(** [glUniform...] writes the uniform of the program in use; a location of
    another program is rejected ([GL_INVALID_OPERATION]). *)
Definition gl_set_uniform (l : Location) (v : UniformValue) (s : GLState)
  : GLState :=
  match gl_program s with
  | Some p =>
      if Shader_eqb p (loc_program l) then
        {| gl_program := gl_program s; gl_viewport := gl_viewport s;
           gl_framebuffer := gl_framebuffer s;
           gl_polygonMode := gl_polygonMode s;
           gl_uniforms := fun l' =>
             if Location_eqb l' l then Some v else gl_uniforms s l' |}
      else s
  | None => s
  end.

(** The effect of a call on the OpenGL state.  The draw calls of the
    collaborators consume the state and leave the tracked part alone, except
    that the sky box activates the shader it is given. *)
Definition gl_exec (c : Call) (s : GLState) : GLState :=
  match c with
  | UseProgram p | SkyBoxDraw p _ _ =>
      {| gl_program := Some p; gl_viewport := gl_viewport s;
         gl_framebuffer := gl_framebuffer s;
         gl_polygonMode := gl_polygonMode s; gl_uniforms := gl_uniforms s |}
  | Uniform l v => gl_set_uniform l v s
  | Viewport x y w h =>
      {| gl_program := gl_program s; gl_viewport := (x, y, w, h);
         gl_framebuffer := gl_framebuffer s;
         gl_polygonMode := gl_polygonMode s; gl_uniforms := gl_uniforms s |}
  | BindFramebuffer f =>
      {| gl_program := gl_program s; gl_viewport := gl_viewport s;
         gl_framebuffer := f;
         gl_polygonMode := gl_polygonMode s; gl_uniforms := gl_uniforms s |}
  | PolygonModeCall m =>
      {| gl_program := gl_program s; gl_viewport := gl_viewport s;
         gl_framebuffer := gl_framebuffer s;
         gl_polygonMode := m; gl_uniforms := gl_uniforms s |}
  | _ => s
  end.

(** ** The window *)

(** Modelled from the spec: [gps::Window] ([Window.h] is not among the
    sources).  Section 6: the window collaborator is created with given
    pixel dimensions and answers a query for its current dimensions; the
    cursor mode and the close flag are those of the GLFW window inside. *)
Record Window := {
  win_width : Z;              (* myWindow.getWindowDimensions().width *)
  win_height : Z;             (* myWindow.getWindowDimensions().height *)
  win_cursor : CursorMode;    (* glfwGetInputMode(window, GLFW_CURSOR) *)
  win_shouldClose : bool;     (* glfwWindowShouldClose(window) *)
}.

Definition set_win_cursor (m : CursorMode) (w : Window) : Window :=
  {| win_width := win_width w; win_height := win_height w;
     win_cursor := m; win_shouldClose := win_shouldClose w |}.
Definition set_win_shouldClose (b : bool) (w : Window) : Window :=
  {| win_width := win_width w; win_height := win_height w;
     win_cursor := win_cursor w; win_shouldClose := b |}.
Definition set_win_dimensions (width height : Z) (w : Window) : Window :=
  {| win_width := width; win_height := height;
     win_cursor := win_cursor w; win_shouldClose := win_shouldClose w |}.

Definition window_created : Window :=
  {| win_width := 1024; win_height := 768;
     win_cursor := GLFW_CURSOR_NORMAL; win_shouldClose := false |}.

(** ** Instances for closed examples

    The properties below hold for every libm, every implementation of the
    remaining GLM functions and every camera.  Where an example has to run
    the program on concrete numbers it uses the following instances. *)

Module Sample.
Local Open Scope f32_scope.

Definition two : F32.t := F32.of_Z 2.

(** Second-order Maclaurin polynomials: exact at [0], as libm is. *)
Definition libm : Libm :=
  {| cosf := fun x => F32.one - x * x / two;
     sinf := fun x => x;
     tanf := fun x => x / (F32.one - x * x / two) |}.

(** GLM's right-handed [lookAt]. *)
Definition lookAtRH (eye center up : vec3) : mat4 :=
  let f := normalize (sub3 center eye) in
  let s := normalize (cross f up) in
  let u := cross s f in
  Mat4 (Vec4 (x3 s) (x3 u) (- x3 f) F32.zero)
       (Vec4 (y3 s) (y3 u) (- y3 f) F32.zero)
       (Vec4 (z3 s) (z3 u) (- z3 f) F32.zero)
       (Vec4 (- dot s eye) (- dot u eye) (dot f eye) F32.one).

(** GLM's right-handed [ortho] with depth range [-1, 1]. *)
Definition orthoRH (left right bottom top zNear zFar : F32.t) : mat4 :=
  Mat4 (Vec4 (two / (right - left)) F32.zero F32.zero F32.zero)
       (Vec4 F32.zero (two / (top - bottom)) F32.zero F32.zero)
       (Vec4 F32.zero F32.zero (- two / (zFar - zNear)) F32.zero)
       (Vec4 (- (right + left) / (right - left))
             (- (top + bottom) / (top - bottom))
             (- (zFar + zNear) / (zFar - zNear)) F32.one).

(** GLM's right-handed [perspective] with depth range [-1, 1]. *)
Definition perspectiveRH (fovy aspect zNear zFar : F32.t) : mat4 :=
  let tanHalfFovy := @tanf libm (fovy / two) in
  Mat4 (Vec4 (F32.one / (aspect * tanHalfFovy)) F32.zero F32.zero F32.zero)
       (Vec4 F32.zero (F32.one / tanHalfFovy) F32.zero F32.zero)
       (Vec4 F32.zero F32.zero (- (zFar + zNear) / (zFar - zNear))
             (- F32.one))
       (Vec4 F32.zero F32.zero (- (two * zFar * zNear) / (zFar - zNear))
             F32.zero).

(** The transposed inverse by cofactors; [r c] reads row [r] of column [c]. *)
Definition det3 (a b c d e f g h i : F32.t) : F32.t :=
  a * (e * i - f * h) - b * (d * i - f * g) + c * (d * h - e * g).

Definition inverseTranspose4 (m : mat4) : mat4 :=
  let '(Mat4 (Vec4 a0 a1 a2 a3) (Vec4 b0 b1 b2 b3)
             (Vec4 c0 c1 c2 c3) (Vec4 d0 d1 d2 d3)) := m in
  let A0 := det3 b1 b2 b3 c1 c2 c3 d1 d2 d3 in
  let A1 := - det3 b0 b2 b3 c0 c2 c3 d0 d2 d3 in
  let A2 := det3 b0 b1 b3 c0 c1 c3 d0 d1 d3 in
  let A3 := - det3 b0 b1 b2 c0 c1 c2 d0 d1 d2 in
  let B0 := - det3 a1 a2 a3 c1 c2 c3 d1 d2 d3 in
  let B1 := det3 a0 a2 a3 c0 c2 c3 d0 d2 d3 in
  let B2 := - det3 a0 a1 a3 c0 c1 c3 d0 d1 d3 in
  let B3 := det3 a0 a1 a2 c0 c1 c2 d0 d1 d2 in
  let C0 := det3 a1 a2 a3 b1 b2 b3 d1 d2 d3 in
  let C1 := - det3 a0 a2 a3 b0 b2 b3 d0 d2 d3 in
  let C2 := det3 a0 a1 a3 b0 b1 b3 d0 d1 d3 in
  let C3 := - det3 a0 a1 a2 b0 b1 b2 d0 d1 d2 in
  let D0 := - det3 a1 a2 a3 b1 b2 b3 c1 c2 c3 in
  let D1 := det3 a0 a2 a3 b0 b2 b3 c0 c2 c3 in
  let D2 := - det3 a0 a1 a3 b0 b1 b3 c0 c1 c3 in
  let D3 := det3 a0 a1 a2 b0 b1 b2 c0 c1 c2 in
  let Determinant := a0 * A0 + a1 * A1 + a2 * A2 + a3 * A3 in
  let q x := x / Determinant in
  Mat4 (Vec4 (q A0) (q A1) (q A2) (q A3))
       (Vec4 (q B0) (q B1) (q B2) (q B3))
       (Vec4 (q C0) (q C1) (q C2) (q C3))
       (Vec4 (q D0) (q D1) (q D2) (q D3)).

Definition glmext : GlmExt :=
  {| inverseTranspose := inverseTranspose4;
     lookAt := lookAtRH;
     ortho := orthoRH;
     perspective := perspectiveRH |}.

(** Modelled from the spec: [gps::Camera] ([Camera.hpp] is not among the
    sources).  Section 4.1: [move] translates the position along the
    basis vector of the direction, scaled by the speed; [rotate] sets the
    orientation from absolute yaw and pitch in degrees by the
    spherical-to-Cartesian conversion; [getViewMatrix] is the look-at
    matrix from the position toward position + front. *)
Record camera_state := {
  cameraPosition : vec3;
  cameraFrontDirection : vec3;
  cameraRightDirection : vec3;
  cameraUpDirection : vec3;
}.

Definition camera_new (position target up : vec3) : camera_state :=
  let front := normalize (sub3 target position) in
  let right := normalize (cross front up) in
  {| cameraPosition := position; cameraFrontDirection := front;
     cameraRightDirection := right; cameraUpDirection := cross right front |}.

Definition camera_move (c : camera_state) (d : MOVE_DIRECTION)
                       (speed : F32.t) : camera_state :=
  let along v := add3 (cameraPosition c) (scale3 v speed) in
  let against v := sub3 (cameraPosition c) (scale3 v speed) in
  let position :=
    match d with
    | MOVE_FORWARD => along (cameraFrontDirection c)
    | MOVE_BACKWARD => against (cameraFrontDirection c)
    | MOVE_RIGHT => along (cameraRightDirection c)
    | MOVE_LEFT => against (cameraRightDirection c)
    | MOVE_UP => along (cameraUpDirection c)
    | MOVE_DOWN => against (cameraUpDirection c)
    end in
  {| cameraPosition := position;
     cameraFrontDirection := cameraFrontDirection c;
     cameraRightDirection := cameraRightDirection c;
     cameraUpDirection := cameraUpDirection c |}.

Definition camera_rotate (c : camera_state) (pitch yaw : F32.t)
  : camera_state :=
  let p := radians pitch in
  let y := radians yaw in
  let front :=
    normalize (Vec3 (@cosf libm y * @cosf libm p) (@sinf libm p)
                    (@sinf libm y * @cosf libm p)) in
  let right := normalize (cross front (Vec3 F32.zero F32.one F32.zero)) in
  {| cameraPosition := cameraPosition c; cameraFrontDirection := front;
     cameraRightDirection := right; cameraUpDirection := cross right front |}.

Definition camera_view (c : camera_state) : mat4 :=
  lookAtRH (cameraPosition c)
           (add3 (cameraPosition c) (cameraFrontDirection c))
           (cameraUpDirection c).

Definition camera : CameraClass :=
  {| Camera := camera_state; Camera_new := camera_new;
     Camera_move := camera_move; Camera_rotate := camera_rotate;
     Camera_getViewMatrix := camera_view |}.
End Sample.

(** ** Inputs of the event loop *)

(** What [glfwPollEvents] can deliver to the registered callbacks. *)
Inductive Event :=
| KeyEvent (key scancode action mode : Z)
| CursorPosEvent (xpos ypos : F64.t)
| WindowSizeEvent (width height : Z)
| CloseRequest.     (* the user closes the window; GLFW sets the close flag *)

(** One iteration of the application loop as the environment shapes it: the
    events polled in it and the error codes [glGetError] has pending at its
    end. *)
Record Frame := { polled : list Event; gl_errors : list Z }.

Definition show_Z (z : Z) : string := NilZero.string_of_int (Z.to_int z).

(** * The program *)

Section Program.
Context {LM : Libm} {GE : GlmExt} {CC : CameraClass}.

Local Open Scope f32_scope.

(** ** Global variables *)

Record Globals := {
  firstMouse : bool;   (* mouse handling *)
  lastX : F32.t;
  lastY : F32.t;
  yaw : F32.t;
  pitch : F32.t;
  isFlat : Z;   (* shading mode: 0 smooth, 1 flat *)
  model : mat4;   (* matrices *)
  view : mat4;
  projection : mat4;
  normalMatrix : mat3;
  lightDir : vec3;   (* light parameters *)
  lightColor : vec3;
  pointLightPos : vec3;
  myCamera : Camera;
  pressedKeys : list bool;   (* GLboolean pressedKeys[1024] *)
  angle : F32.t;   (* rotation of the model *)
  lightAngle : F32.t;   (* rotation of the light around the scene *)
}.

(** Assignment to one global. *)
Definition set_firstMouse (v : bool) (g : Globals) : Globals :=
  {| firstMouse := v; lastX := lastX g; lastY := lastY g; yaw := yaw g;
     pitch := pitch g; isFlat := isFlat g; model := model g;
     view := view g; projection := projection g;
     normalMatrix := normalMatrix g; lightDir := lightDir g;
     lightColor := lightColor g; pointLightPos := pointLightPos g;
     myCamera := myCamera g; pressedKeys := pressedKeys g;
     angle := angle g; lightAngle := lightAngle g |}.
Definition set_lastX (v : F32.t) (g : Globals) : Globals :=
  {| firstMouse := firstMouse g; lastX := v; lastY := lastY g;
     yaw := yaw g; pitch := pitch g; isFlat := isFlat g;
     model := model g; view := view g; projection := projection g;
     normalMatrix := normalMatrix g; lightDir := lightDir g;
     lightColor := lightColor g; pointLightPos := pointLightPos g;
     myCamera := myCamera g; pressedKeys := pressedKeys g;
     angle := angle g; lightAngle := lightAngle g |}.
Definition set_lastY (v : F32.t) (g : Globals) : Globals :=
  {| firstMouse := firstMouse g; lastX := lastX g; lastY := v;
     yaw := yaw g; pitch := pitch g; isFlat := isFlat g;
     model := model g; view := view g; projection := projection g;
     normalMatrix := normalMatrix g; lightDir := lightDir g;
     lightColor := lightColor g; pointLightPos := pointLightPos g;
     myCamera := myCamera g; pressedKeys := pressedKeys g;
     angle := angle g; lightAngle := lightAngle g |}.
Definition set_yaw (v : F32.t) (g : Globals) : Globals :=
  {| firstMouse := firstMouse g; lastX := lastX g; lastY := lastY g;
     yaw := v; pitch := pitch g; isFlat := isFlat g; model := model g;
     view := view g; projection := projection g;
     normalMatrix := normalMatrix g; lightDir := lightDir g;
     lightColor := lightColor g; pointLightPos := pointLightPos g;
     myCamera := myCamera g; pressedKeys := pressedKeys g;
     angle := angle g; lightAngle := lightAngle g |}.
Definition set_pitch (v : F32.t) (g : Globals) : Globals :=
  {| firstMouse := firstMouse g; lastX := lastX g; lastY := lastY g;
     yaw := yaw g; pitch := v; isFlat := isFlat g; model := model g;
     view := view g; projection := projection g;
     normalMatrix := normalMatrix g; lightDir := lightDir g;
     lightColor := lightColor g; pointLightPos := pointLightPos g;
     myCamera := myCamera g; pressedKeys := pressedKeys g;
     angle := angle g; lightAngle := lightAngle g |}.
Definition set_isFlat (v : Z) (g : Globals) : Globals :=
  {| firstMouse := firstMouse g; lastX := lastX g; lastY := lastY g;
     yaw := yaw g; pitch := pitch g; isFlat := v; model := model g;
     view := view g; projection := projection g;
     normalMatrix := normalMatrix g; lightDir := lightDir g;
     lightColor := lightColor g; pointLightPos := pointLightPos g;
     myCamera := myCamera g; pressedKeys := pressedKeys g;
     angle := angle g; lightAngle := lightAngle g |}.
Definition set_model (v : mat4) (g : Globals) : Globals :=
  {| firstMouse := firstMouse g; lastX := lastX g; lastY := lastY g;
     yaw := yaw g; pitch := pitch g; isFlat := isFlat g; model := v;
     view := view g; projection := projection g;
     normalMatrix := normalMatrix g; lightDir := lightDir g;
     lightColor := lightColor g; pointLightPos := pointLightPos g;
     myCamera := myCamera g; pressedKeys := pressedKeys g;
     angle := angle g; lightAngle := lightAngle g |}.
Definition set_view (v : mat4) (g : Globals) : Globals :=
  {| firstMouse := firstMouse g; lastX := lastX g; lastY := lastY g;
     yaw := yaw g; pitch := pitch g; isFlat := isFlat g;
     model := model g; view := v; projection := projection g;
     normalMatrix := normalMatrix g; lightDir := lightDir g;
     lightColor := lightColor g; pointLightPos := pointLightPos g;
     myCamera := myCamera g; pressedKeys := pressedKeys g;
     angle := angle g; lightAngle := lightAngle g |}.
Definition set_projection (v : mat4) (g : Globals) : Globals :=
  {| firstMouse := firstMouse g; lastX := lastX g; lastY := lastY g;
     yaw := yaw g; pitch := pitch g; isFlat := isFlat g;
     model := model g; view := view g; projection := v;
     normalMatrix := normalMatrix g; lightDir := lightDir g;
     lightColor := lightColor g; pointLightPos := pointLightPos g;
     myCamera := myCamera g; pressedKeys := pressedKeys g;
     angle := angle g; lightAngle := lightAngle g |}.
Definition set_normalMatrix (v : mat3) (g : Globals) : Globals :=
  {| firstMouse := firstMouse g; lastX := lastX g; lastY := lastY g;
     yaw := yaw g; pitch := pitch g; isFlat := isFlat g;
     model := model g; view := view g; projection := projection g;
     normalMatrix := v; lightDir := lightDir g;
     lightColor := lightColor g; pointLightPos := pointLightPos g;
     myCamera := myCamera g; pressedKeys := pressedKeys g;
     angle := angle g; lightAngle := lightAngle g |}.
Definition set_lightDir (v : vec3) (g : Globals) : Globals :=
  {| firstMouse := firstMouse g; lastX := lastX g; lastY := lastY g;
     yaw := yaw g; pitch := pitch g; isFlat := isFlat g;
     model := model g; view := view g; projection := projection g;
     normalMatrix := normalMatrix g; lightDir := v;
     lightColor := lightColor g; pointLightPos := pointLightPos g;
     myCamera := myCamera g; pressedKeys := pressedKeys g;
     angle := angle g; lightAngle := lightAngle g |}.
Definition set_lightColor (v : vec3) (g : Globals) : Globals :=
  {| firstMouse := firstMouse g; lastX := lastX g; lastY := lastY g;
     yaw := yaw g; pitch := pitch g; isFlat := isFlat g;
     model := model g; view := view g; projection := projection g;
     normalMatrix := normalMatrix g; lightDir := lightDir g;
     lightColor := v; pointLightPos := pointLightPos g;
     myCamera := myCamera g; pressedKeys := pressedKeys g;
     angle := angle g; lightAngle := lightAngle g |}.
Definition set_pointLightPos (v : vec3) (g : Globals) : Globals :=
  {| firstMouse := firstMouse g; lastX := lastX g; lastY := lastY g;
     yaw := yaw g; pitch := pitch g; isFlat := isFlat g;
     model := model g; view := view g; projection := projection g;
     normalMatrix := normalMatrix g; lightDir := lightDir g;
     lightColor := lightColor g; pointLightPos := v;
     myCamera := myCamera g; pressedKeys := pressedKeys g;
     angle := angle g; lightAngle := lightAngle g |}.
Definition set_myCamera (v : Camera) (g : Globals) : Globals :=
  {| firstMouse := firstMouse g; lastX := lastX g; lastY := lastY g;
     yaw := yaw g; pitch := pitch g; isFlat := isFlat g;
     model := model g; view := view g; projection := projection g;
     normalMatrix := normalMatrix g; lightDir := lightDir g;
     lightColor := lightColor g; pointLightPos := pointLightPos g;
     myCamera := v; pressedKeys := pressedKeys g; angle := angle g;
     lightAngle := lightAngle g |}.
Definition set_pressedKeys (v : list bool) (g : Globals) : Globals :=
  {| firstMouse := firstMouse g; lastX := lastX g; lastY := lastY g;
     yaw := yaw g; pitch := pitch g; isFlat := isFlat g;
     model := model g; view := view g; projection := projection g;
     normalMatrix := normalMatrix g; lightDir := lightDir g;
     lightColor := lightColor g; pointLightPos := pointLightPos g;
     myCamera := myCamera g; pressedKeys := v; angle := angle g;
     lightAngle := lightAngle g |}.
Definition set_angle (v : F32.t) (g : Globals) : Globals :=
  {| firstMouse := firstMouse g; lastX := lastX g; lastY := lastY g;
     yaw := yaw g; pitch := pitch g; isFlat := isFlat g;
     model := model g; view := view g; projection := projection g;
     normalMatrix := normalMatrix g; lightDir := lightDir g;
     lightColor := lightColor g; pointLightPos := pointLightPos g;
     myCamera := myCamera g; pressedKeys := pressedKeys g; angle := v;
     lightAngle := lightAngle g |}.
Definition set_lightAngle (v : F32.t) (g : Globals) : Globals :=
  {| firstMouse := firstMouse g; lastX := lastX g; lastY := lastY g;
     yaw := yaw g; pitch := pitch g; isFlat := isFlat g;
     model := model g; view := view g; projection := projection g;
     normalMatrix := normalMatrix g; lightDir := lightDir g;
     lightColor := lightColor g; pointLightPos := pointLightPos g;
     myCamera := myCamera g; pressedKeys := pressedKeys g;
     angle := angle g; lightAngle := v |}.

(** [GLfloat cameraSpeed = 0.05f], never assigned. *)
Definition cameraSpeed : F32.t := F32.of_ratio 5 100.

(** [SHADOW_WIDTH], [SHADOW_HEIGHT] *)
Definition SHADOW_WIDTH : Z := 2048.
Definition SHADOW_HEIGHT : Z := 2048.

(** The uniform locations [initUniforms] stores in globals before any
    callback or frame runs; they are never assigned again. *)
Definition modelLoc := Loc myBasicShader "model".
Definition viewLoc := Loc myBasicShader "view".
Definition projectionLoc := Loc myBasicShader "projection".
Definition normalMatrixLoc := Loc myBasicShader "normalMatrix".
Definition lightDirLoc := Loc myBasicShader "lightDir".
Definition lightColorLoc := Loc myBasicShader "lightColor".
Definition pointLightPosLoc := Loc myBasicShader "pointLightPos".
Definition isFlatLoc := Loc myBasicShader "isFlat".

(** The globals as their initialisers (and zero-initialisation) leave them. *)
Definition globals_initial : Globals :=
  {| firstMouse := true;
     lastX := F32.of_Z 512; lastY := F32.of_Z 384;
     yaw := - F32.of_Z 90; pitch := F32.zero;
     isFlat := 0;
     model := mat4_zero; view := mat4_zero; projection := mat4_zero;
     normalMatrix := mat3_zero;
     lightDir := splat3 F32.zero; lightColor := splat3 F32.zero;
     pointLightPos := splat3 F32.zero;
     myCamera := Camera_new (Vec3 F32.zero F32.zero (F32.of_Z 3))
                            (Vec3 F32.zero F32.zero (- F32.of_Z 10))
                            (Vec3 F32.zero F32.one F32.zero);
     pressedKeys := replicate 1024 false;
     angle := F32.zero; lightAngle := F32.zero |}.

(** ** State and log *)

Record World := { globals : Globals; window : Window; gl : GLState }.

Definition world_initial : World :=
  {| globals := globals_initial;
     window := {| win_width := 0; win_height := 0;
                  win_cursor := GLFW_CURSOR_NORMAL;
                  win_shouldClose := false |};
     gl := gl_initial |}.

(** A computation returns a value, the new state and the calls it issued. *)
Definition M (A : Type) : Type := World -> A * World * list Call.

#[global] Instance M_ret : MRet M := fun A a w => (a, w, []).
#[global] Instance M_bind : MBind M := fun A B k m w =>
  let r1 := m w in
  let r2 := k r1.1.1 r1.1.2 in
  (r2.1.1, r2.1.2, r1.2 ++ r2.2).

Definition result {A} (m : M A) (w : World) : A := (m w).1.1.
Definition after {A} (m : M A) (w : World) : World := (m w).1.2.
Definition issued {A} (m : M A) (w : World) : list Call := (m w).2.

Definition read {A} (f : Globals -> A) : M A :=
  fun w => (f (globals w), w, []).
Definition assign (f : Globals -> Globals) : M unit :=
  fun w => (tt, {| globals := f (globals w); window := window w;
                   gl := gl w |}, []).
Definition read_window {A} (f : Window -> A) : M A :=
  fun w => (f (window w), w, []).
Definition update_window (f : Window -> Window) : M unit :=
  fun w => (tt, {| globals := globals w; window := f (window w);
                   gl := gl w |}, []).
Definition call (c : Call) : M unit :=
  fun w => (tt, {| globals := globals w; window := window w;
                   gl := gl_exec c (gl w) |}, [c]).
Definition when (b : bool) (m : M unit) : M unit :=
  if b then m else mret tt.

(** [pressedKeys[key]] for a key constant. *)
Definition key_down (key : Z) (g : Globals) : bool :=
  default false (pressedKeys g !! Z.to_nat key).

(** ** Calls, by their C++ names *)

Definition useShaderProgram (s : Shader) : M unit := call (UseProgram s).
Definition glGetUniformLocation (s : Shader) (name : string) : Location :=
  Loc s name.
Definition glUniformMatrix4fv (l : Location) (m : mat4) : M unit :=
  call (Uniform l (UMat4 m)).
Definition glUniformMatrix3fv (l : Location) (m : mat3) : M unit :=
  call (Uniform l (UMat3 m)).
Definition glUniform3fv (l : Location) (v : vec3) : M unit :=
  call (Uniform l (UVec3 v)).
Definition glUniform1i (l : Location) (i : Z) : M unit :=
  call (Uniform l (UInt i)).
Definition glViewport (x y w h : Z) : M unit := call (Viewport x y w h).
Definition glBindFramebuffer (f : Framebuffer) : M unit :=
  call (BindFramebuffer f).
Definition glPolygonMode (m : PolygonMode) : M unit :=
  call (PolygonModeCall m).
Definition glfwSetInputMode (m : CursorMode) : M unit :=
  call (SetInputMode m);; update_window (set_win_cursor m).
Definition glfwSetWindowShouldClose : M unit :=
  call SetWindowShouldClose;; update_window (set_win_shouldClose true).
Definition myCamera_move (d : MOVE_DIRECTION) (speed : F32.t) : M unit :=
  call (CameraMove d speed);;
  cam ← read myCamera; assign (set_myCamera (Camera_move cam d speed)).
Definition myCamera_rotate (p y : F32.t) : M unit :=
  call (CameraRotate p y);;
  cam ← read myCamera; assign (set_myCamera (Camera_rotate cam p y)).
Definition myCamera_getViewMatrix : M mat4 :=
  cam ← read myCamera; mret (Camera_getViewMatrix cam).

(** [glCheckError()] at source line [line]: one report per pending error. *)
Definition glCheckError (line : Z) (pending : list Z) : M unit :=
  fun w => (tt, w, map (fun code => ReportGLError code line) pending).

(** ** Callbacks *)

Definition windowResizeCallback (width height : Z) : M unit :=
  call (Output Stdout ("Window resized! New width: " ++ show_Z width
                       ++ " , and height: " ++ show_Z height));;
  glViewport 0 0 width height;;
  assign (set_projection
            (perspective (radians (F32.of_Z 45))
                         (F32.of_Z width / F32.of_Z height)
                         (F32.of_ratio 1 10) (F32.of_Z 20)));;
  useShaderProgram myBasicShader;;
  p ← read projection; glUniformMatrix4fv projectionLoc p.

Definition keyboardCallback (key scancode action mode : Z) : M unit :=
  when ((key =? GLFW_KEY_ESCAPE)%Z && (action =? GLFW_PRESS)%Z)
    glfwSetWindowShouldClose;;
  when ((key =? GLFW_KEY_M)%Z && (action =? GLFW_PRESS)%Z)
    (cursorMode ← read_window win_cursor;
     if CursorMode_eqb cursorMode GLFW_CURSOR_DISABLED
     then glfwSetInputMode GLFW_CURSOR_NORMAL
     else glfwSetInputMode GLFW_CURSOR_DISABLED);;
  when ((0 <=? key)%Z && (key <? 1024)%Z)
    (if (action =? GLFW_PRESS)%Z then
       k ← read pressedKeys;
       assign (set_pressedKeys (<[Z.to_nat key := true]> k))
     else if (action =? GLFW_RELEASE)%Z then
       k ← read pressedKeys;
       assign (set_pressedKeys (<[Z.to_nat key := false]> k))
     else mret tt).

Definition mouseCallback (xpos ypos : F64.t) : M unit :=
  cursorMode ← read_window win_cursor;
  if CursorMode_eqb cursorMode GLFW_CURSOR_NORMAL then mret tt
  else
    fm ← read firstMouse;
    when fm (assign (set_lastX (double_to_float xpos));;
             assign (set_lastY (double_to_float ypos));;
             assign (set_firstMouse false));;
    lx ← read lastX;
    ly ← read lastY;
    let xoffset := double_to_float (F64.sub xpos (float_to_double lx)) in
    let yoffset := double_to_float (F64.sub (float_to_double ly) ypos) in
    assign (set_lastX (double_to_float xpos));;
    assign (set_lastY (double_to_float ypos));;
    let sensitivity := F32.of_ratio 1 10 in
    let xoffset := xoffset * sensitivity in
    let yoffset := yoffset * sensitivity in
    y ← read yaw; assign (set_yaw (y + xoffset));;
    p ← read pitch; assign (set_pitch (p + yoffset));;
    p ← read pitch;
    when (F32.ltb (F32.of_Z 89) p) (assign (set_pitch (F32.of_Z 89)));;
    p ← read pitch;
    when (F32.ltb p (- F32.of_Z 89)) (assign (set_pitch (- F32.of_Z 89)));;
    p ← read pitch; y ← read yaw; myCamera_rotate p y;;
    v ← myCamera_getViewMatrix; assign (set_view v);;
    useShaderProgram myBasicShader;;
    v ← read view; glUniformMatrix4fv viewLoc v;;
    m ← read model;
    assign (set_normalMatrix (mat3_of_mat4 (inverseTranspose (glm.mul v m))));;
    n ← read normalMatrix; glUniformMatrix3fv normalMatrixLoc n.

(** ** [processInput] *)

(** The body shared, word for word, by the six camera keys. *)
Definition processInput_move (d : MOVE_DIRECTION) : M unit :=
  myCamera_move d cameraSpeed;;
  v ← myCamera_getViewMatrix; assign (set_view v);;
  useShaderProgram myBasicShader;;
  v ← read view; glUniformMatrix4fv viewLoc v;;
  m ← read model;
  assign (set_normalMatrix (mat3_of_mat4 (inverseTranspose (glm.mul v m)))).

(** The body shared by [Q] and [E], after [angle] is updated. *)
Definition processInput_turn : M unit :=
  a ← read angle;
  assign (set_model (rotate identity (radians a)
                            (Vec3 F32.zero F32.one F32.zero)));;
  v ← read view; m ← read model;
  assign (set_normalMatrix (mat3_of_mat4 (inverseTranspose (glm.mul v m)))).

(** [processInput], in the order of the source: the camera keys, the keys
    that turn the model, the visualization modes, the light keys. *)
Definition processInput_camera : M unit :=
  b ← read (key_down GLFW_KEY_W); when b (processInput_move MOVE_FORWARD);;
  b ← read (key_down GLFW_KEY_S); when b (processInput_move MOVE_BACKWARD);;
  b ← read (key_down GLFW_KEY_A); when b (processInput_move MOVE_LEFT);;
  b ← read (key_down GLFW_KEY_D); when b (processInput_move MOVE_RIGHT);;
  b ← read (key_down GLFW_KEY_SPACE); when b (processInput_move MOVE_UP);;
  b ← read (key_down GLFW_KEY_LEFT_SHIFT);
  when b (processInput_move MOVE_DOWN).

Definition processInput_model : M unit :=
  b ← read (key_down GLFW_KEY_Q);
  when b (a ← read angle; assign (set_angle (a - F32.one));;
          processInput_turn);;
  b ← read (key_down GLFW_KEY_E);
  when b (a ← read angle; assign (set_angle (a + F32.one));;
          processInput_turn).

(** One visualization-mode block: the polygon mode and the shading flag. *)
Definition set_display_mode (m : PolygonMode) (flat : Z) : M unit :=
  glPolygonMode m;; assign (set_isFlat flat).

Definition processInput_modes : M unit :=
  b ← read (key_down GLFW_KEY_1); when b (set_display_mode GL_FILL 0);;
  b ← read (key_down GLFW_KEY_2); when b (set_display_mode GL_LINE 0);;
  b ← read (key_down GLFW_KEY_3); when b (set_display_mode GL_POINT 0);;
  b ← read (key_down GLFW_KEY_4); when b (set_display_mode GL_FILL 1).

Definition processInput_light : M unit :=
  b ← read (key_down GLFW_KEY_J);
  when b (a ← read lightAngle; assign (set_lightAngle (a - F32.one)));;
  b ← read (key_down GLFW_KEY_L);
  when b (a ← read lightAngle; assign (set_lightAngle (a + F32.one))).

Definition processInput : M unit :=
  processInput_camera;;
  processInput_model;;
  processInput_modes;;
  processInput_light.

(** ** Initialisation *)

Definition initOpenGLWindow : M unit :=
  call (WindowCreate 1024 768 "OpenGL Project Core");;
  update_window (fun _ => window_created).

Definition setWindowCallbacks : M unit :=
  call SetCallbacks;;
  glfwSetInputMode GLFW_CURSOR_DISABLED.

Definition initOpenGLState : M unit :=
  call (GLSetup "glClearColor(0.5f, 0.5f, 0.5f, 1.0f)");;
  width ← read_window win_width; height ← read_window win_height;
  glViewport 0 0 width height;;
  call (GLSetup "glEnable(GL_DEPTH_TEST)");;
  call (GLSetup "glDepthFunc(GL_LESS)");;
  call (GLSetup "glEnable(GL_CULL_FACE)");;
  call (GLSetup "glCullFace(GL_BACK)");;
  call (GLSetup "glFrontFace(GL_CCW)");;
  call (GLSetup "glEnable(GL_BLEND)");;
  call (GLSetup "glBlendFunc(GL_SRC_ALPHA, GL_ONE_MINUS_SRC_ALPHA)").

Definition initModels : M unit :=
  call (LoadModel nanosuit "objects/nanosuit/nanosuit.obj");;
  call (LoadModel ground "objects/ground/ground.obj");;
  call (LoadModel lightCube "objects/cube/cube.obj");;
  call (LoadShader skyboxShader "shaders/skyboxShader.vert"
                   "shaders/skyboxShader.frag");;
  useShaderProgram skyboxShader.

Definition initShaders : M unit :=
  call (LoadShader myBasicShader "shaders/basic.vert" "shaders/basic.frag");;
  call (LoadShader lightShader "shaders/lightCube.vert"
                   "shaders/lightCube.frag");;
  call (LoadShader depthMapShader "shaders/depthMap.vert"
                   "shaders/depthMap.frag").

Definition initSkyBox : M unit :=
  call (SkyBoxLoad ["skybox/right.tga"; "skybox/left.tga"; "skybox/top.tga";
                    "skybox/bottom.tga"; "skybox/back.tga";
                    "skybox/front.tga"]%string).

Definition initUniforms : M unit :=
  useShaderProgram myBasicShader;;
  a ← read angle;
  assign (set_model (rotate identity (radians a)
                            (Vec3 F32.zero F32.one F32.zero)));;
  v ← myCamera_getViewMatrix; assign (set_view v);;
  v ← read view; glUniformMatrix4fv viewLoc v;;
  m ← read model;
  assign (set_normalMatrix (mat3_of_mat4 (inverseTranspose (glm.mul v m))));;
  width ← read_window win_width; height ← read_window win_height;
  assign (set_projection
            (perspective (radians (F32.of_Z 45))
                         (F32.of_Z width / F32.of_Z height)
                         (F32.of_ratio 1 10) (F32.of_Z 50)));;
  p ← read projection; glUniformMatrix4fv projectionLoc p;;
  assign (set_lightDir (Vec3 F32.zero F32.one F32.one));;
  d ← read lightDir; glUniform3fv lightDirLoc d;;
  assign (set_lightColor (Vec3 F32.one F32.one F32.one));;
  c ← read lightColor; glUniform3fv lightColorLoc c;;
  assign (set_pointLightPos (Vec3 F32.zero (F32.of_Z 2) F32.zero));;
  q ← read pointLightPos; glUniform3fv pointLightPosLoc q;;
  f ← read isFlat; glUniform1i isFlatLoc f.

Definition initFBO : M unit :=
  call (GLSetup "glGenFramebuffers(1, &shadowMapFBO)");;
  call (GLSetup "glGenTextures(1, &depthMapTexture)");;
  call BindDepthMapTexture;;
  call (GLSetup "glTexImage2D(GL_TEXTURE_2D, 0, GL_DEPTH_COMPONENT, SHADOW_WIDTH, SHADOW_HEIGHT, 0, GL_DEPTH_COMPONENT, GL_FLOAT, NULL)");;
  call (GLSetup "glTexParameteri(GL_TEXTURE_2D, GL_TEXTURE_MIN_FILTER, GL_NEAREST)");;
  call (GLSetup "glTexParameteri(GL_TEXTURE_2D, GL_TEXTURE_MAG_FILTER, GL_NEAREST)");;
  call (GLSetup "glTexParameterfv(GL_TEXTURE_2D, GL_TEXTURE_BORDER_COLOR, borderColor)");;
  call (GLSetup "glTexParameteri(GL_TEXTURE_2D, GL_TEXTURE_WRAP_S, GL_CLAMP_TO_BORDER)");;
  call (GLSetup "glTexParameteri(GL_TEXTURE_2D, GL_TEXTURE_WRAP_T, GL_CLAMP_TO_BORDER)");;
  glBindFramebuffer shadowMapFBO;;
  call (GLSetup "glFramebufferTexture2D(GL_FRAMEBUFFER, GL_DEPTH_ATTACHMENT, GL_TEXTURE_2D, depthMapTexture, 0)");;
  call (GLSetup "glDrawBuffer(GL_NONE)");;
  call (GLSetup "glReadBuffer(GL_NONE)");;
  glBindFramebuffer DefaultFramebuffer.

(** ** Rendering *)

(** The position of the virtual light camera: [lightPos] of
    [computeLightSpaceTrMatrix]. *)
Definition lightPos (g : Globals) : vec3 :=
  let lightRotation :=
    rotate identity (radians (lightAngle g))
           (Vec3 F32.zero F32.one F32.zero) in
  let rotatedLightDir :=
    vec3_of_vec4 (mul_vec4 lightRotation
                           (Vec4 F32.zero F32.one F32.one F32.zero)) in
  let lightDirN := normalize rotatedLightDir in
  scale3 lightDirN (F32.of_Z 10).

Definition computeLightSpaceTrMatrix (g : Globals) : mat4 :=
  let lightPos := lightPos g in
  let target := splat3 F32.zero in
  let up := Vec3 F32.zero F32.one F32.zero in
  let lightView := lookAt lightPos target up in
  let lightProjection :=
    ortho (- F32.of_Z 10) (F32.of_Z 10) (- F32.of_Z 10) (F32.of_Z 10)
          F32.one (F32.of_Z 50) in
  glm.mul lightProjection lightView.

Definition drawObjects (shader : Shader) (depthPass : bool) : M unit :=
  (* nanosuit *)
  useShaderProgram shader;;
  a ← read angle;
  assign (set_model (rotate identity (radians a)
                            (Vec3 F32.zero F32.one F32.zero)));;
  m ← read model; glUniformMatrix4fv (glGetUniformLocation shader "model") m;;
  when (negb depthPass)
    (v ← read view; m ← read model;
     assign (set_normalMatrix
               (mat3_of_mat4 (inverseTranspose (glm.mul v m))));;
     n ← read normalMatrix;
     glUniformMatrix3fv (glGetUniformLocation shader "normalMatrix") n);;
  call (Draw nanosuit shader);;
  (* ground *)
  assign (set_model (translate identity
                               (Vec3 F32.zero (- F32.one) F32.zero)));;
  m ← read model;
  assign (set_model (scale m (splat3 (F32.of_ratio 5 10))));;
  m ← read model; glUniformMatrix4fv (glGetUniformLocation shader "model") m;;
  when (negb depthPass)
    (v ← read view; m ← read model;
     assign (set_normalMatrix
               (mat3_of_mat4 (inverseTranspose (glm.mul v m))));;
     n ← read normalMatrix;
     glUniformMatrix3fv (glGetUniformLocation shader "normalMatrix") n);;
  call (Draw ground shader).

Definition renderScene : M unit :=
  (* step 1: depth map *)
  useShaderProgram depthMapShader;;
  lightSpaceTrMatrix ← read computeLightSpaceTrMatrix;
  glUniformMatrix4fv
    (glGetUniformLocation depthMapShader "lightSpaceTrMatrix")
    lightSpaceTrMatrix;;
  glViewport 0 0 SHADOW_WIDTH SHADOW_HEIGHT;;
  glBindFramebuffer shadowMapFBO;;
  call (Clear false true);;
  drawObjects depthMapShader true;;
  glBindFramebuffer DefaultFramebuffer;;
  (* step 2: final scene *)
  width ← read_window win_width; height ← read_window win_height;
  glViewport 0 0 width height;;
  call (Clear true true);;
  useShaderProgram myBasicShader;;
  f ← read isFlat;
  glUniform1i (glGetUniformLocation myBasicShader "isFlat") f;;
  let initAlphaLoc := glGetUniformLocation myBasicShader "initAlpha" in
  glUniform1i initAlphaLoc 0;;
  v ← myCamera_getViewMatrix; assign (set_view v);;
  v ← read view; glUniformMatrix4fv viewLoc v;;
  glUniformMatrix4fv
    (glGetUniformLocation myBasicShader "lightSpaceTrMatrix")
    lightSpaceTrMatrix;;
  call (ActiveTexture 2);;
  call BindDepthMapTexture;;
  glUniform1i (glGetUniformLocation myBasicShader "shadowMap") 2;;
  a ← read lightAngle;
  let lightRotation :=
    rotate identity (radians a) (Vec3 F32.zero F32.one F32.zero) in
  let rotatedLightDir :=
    vec3_of_vec4 (mul_vec4 lightRotation
                           (Vec4 F32.zero F32.one F32.one F32.zero)) in
  glUniform3fv lightDirLoc rotatedLightDir;;
  drawObjects myBasicShader false;;
  (* light cube *)
  useShaderProgram lightShader;;
  v ← read view;
  glUniformMatrix4fv (glGetUniformLocation lightShader "view") v;;
  p ← read projection;
  glUniformMatrix4fv (glGetUniformLocation lightShader "projection") p;;
  assign (set_model lightRotation);;
  m ← read model;
  assign (set_model
            (translate m (scale3 (Vec3 F32.zero F32.one F32.one)
                                 (F32.of_Z 10))));;
  m ← read model;
  assign (set_model (scale m (Vec3 (F32.of_ratio 5 10) (F32.of_ratio 5 10)
                                   (F32.of_ratio 5 10))));;
  m ← read model;
  glUniformMatrix4fv (glGetUniformLocation lightShader "model") m;;
  call (Draw lightCube lightShader);;
  v ← read view; p ← read projection;
  call (SkyBoxDraw skyboxShader v p).

Definition cleanup : M unit := call WindowDelete.

(** ** The application loop and [main] *)

(** [glfwPollEvents]: each event runs its callback.  Modelled from the
    spec: a size event carries the new dimensions, which the window
    reports from then on (section 6: the window answers a query for its
    current dimensions); [main.cpp] itself stores nothing in [myWindow]
    on a resize. *)
Definition dispatch (e : Event) : M unit :=
  match e with
  | KeyEvent key scancode action mode =>
      keyboardCallback key scancode action mode
  | CursorPosEvent xpos ypos => mouseCallback xpos ypos
  | WindowSizeEvent width height =>
      update_window (set_win_dimensions width height);;
      windowResizeCallback width height
  | CloseRequest => update_window (set_win_shouldClose true)
  end.

Fixpoint glfwPollEvents (events : list Event) : M unit :=
  match events with
  | [] => mret tt
  | e :: rest => dispatch e;; glfwPollEvents rest
  end.

(** One iteration of the loop body. *)
Definition frame (f : Frame) : M unit :=
  processInput;;
  renderScene;;
  glfwPollEvents (polled f);;
  call SwapBuffers;;
  glCheckError 650 (gl_errors f).

(** The [while] loop over the frames the environment supplies: [true] when
    the loop has exited, [false] when it is still running after the last
    supplied frame. *)
Fixpoint loop (frames : list Frame) : M bool :=
  close ← read_window win_shouldClose;
  if close : bool then mret true
  else match frames with
       | [] => mret false
       | f :: rest => frame f;; loop rest
       end.

(** [main]: [created] is [None] when [myWindow.Create] returns and
    [Some what] when it throws a [std::exception] with that message.  The
    result is the exit status, or [None] while the loop is still running. *)
Definition main (created : option string) (startup_errors : list Z)
                (frames : list Frame) : M (option Z) :=
  match created with
  | Some what =>
      call (Output Stderr what);;
      mret (Some EXIT_FAILURE)
  | None =>
      initOpenGLWindow;;
      initOpenGLState;;
      initFBO;;
      initModels;;
      initShaders;;
      initUniforms;;
      initSkyBox;;
      setWindowCallbacks;;
      glCheckError 641 startup_errors;;
      exited ← loop frames;
      if exited : bool then cleanup;; mret (Some EXIT_SUCCESS)
      else mret None
  end.

(** ** Observations on states and logs *)

(** The uploads to the uniform called [name], in order: the program whose
    location was used and the value. *)
Fixpoint uploads (name : string) (calls : list Call)
  : list (Shader * UniformValue) :=
  match calls with
  | [] => []
  | Uniform l v :: rest =>
      if String.eqb (loc_name l) name
      then (loc_program l, v) :: uploads name rest
      else uploads name rest
  | _ :: rest => uploads name rest
  end.

(** The model matrices with which [m] is drawn: for every [Draw m s] the
    value of the last upload to ["model"] of [s] before it. *)
Fixpoint drawn_with (m : Model3D) (last : option UniformValue)
                    (calls : list Call) : list (option UniformValue) :=
  match calls with
  | [] => []
  | Uniform l v :: rest =>
      if String.eqb (loc_name l) "model"
      then drawn_with m (Some v) rest
      else drawn_with m last rest
  | Draw m' _ :: rest =>
      match m, m' with
      | nanosuit, nanosuit | ground, ground | lightCube, lightCube =>
          last :: drawn_with m last rest
      | _, _ => drawn_with m last rest
      end
  | _ :: rest => drawn_with m last rest
  end.

(** The translation part of a model transform. *)
Definition translation (m : mat4) : vec3 := vec3_of_vec4 (c3 m).

(** Where the light marker is drawn: the translation of the model matrix
    in force at each draw of [lightCube]. *)
Definition marker_positions (calls : list Call) : list (option vec3) :=
  map (fun last => match last with
                   | Some (UMat4 m) => Some (translation m)
                   | _ => None
                   end)
      (drawn_with lightCube None calls).

(** [-89 <= p <= 89] as the comparisons of the program decide it. *)
Definition pitch_in_range (p : F32.t) : bool :=
  F32.leb (- F32.of_Z 89) p && F32.leb p (F32.of_Z 89).

(** A call passes [Camera::rotate] a pitch within the limits (every other
    call does so trivially). *)
Definition rotate_pitch_ok (c : Call) : Prop :=
  match c with
  | CameraRotate p _ => pitch_in_range p = true
  | _ => True
  end.

(** The display mode: the rasteriser's polygon mode and the [isFlat] flag. *)
Definition display_mode (w : World) : PolygonMode * Z :=
  (gl_polygonMode (gl w), isFlat (globals w)).

Definition display_modes : list (PolygonMode * Z) :=
  [(GL_FILL, 0); (GL_LINE, 0); (GL_POINT, 0); (GL_FILL, 1)].

(** A cursor event with finite coordinates. *)
Definition finite_event (e : Event) : Prop :=
  match e with
  | CursorPosEvent xpos ypos =>
      is_finite xpos = true /\ is_finite ypos = true
  | _ => True
  end.

Definition finite_frame (f : Frame) : Prop := Forall finite_event (polled f).

(** The rectangles of the [glViewport] calls, in order. *)
Fixpoint viewports (calls : list Call) : list (Z * Z * Z * Z) :=
  match calls with
  | [] => []
  | Viewport x y w h :: rest => (x, y, w, h) :: viewports rest
  | _ :: rest => viewports rest
  end.

(** The rotated base direction of the light at angle [theta] (degrees):
    [rotate(theta) * (0, 1, 1)]. *)
Definition rotated_base_direction (theta : F32.t) : vec3 :=
  vec3_of_vec4
    (mul_vec4 (rotate identity (radians theta)
                      (Vec3 F32.zero F32.one F32.zero))
              (Vec4 F32.zero F32.one F32.one F32.zero)).

(** The model matrices of the two scene objects. *)
Definition nanosuit_model (g : Globals) : mat4 :=
  rotate identity (radians (angle g)) (Vec3 F32.zero F32.one F32.zero).
Definition ground_model : mat4 :=
  scale (translate identity (Vec3 F32.zero (- F32.one) F32.zero))
        (splat3 (F32.of_ratio 5 10)).

(** [inverse-transpose(view * model)], cut to 3x3. *)
Definition normal_matrix_of (view model : mat4) : mat3 :=
  mat3_of_mat4 (inverseTranspose (glm.mul view model)).

(** ** Specifications of computations *)

(** [wp m w Q]: [Q] holds of the result, the final state and the calls of
    [m] run from [w]. *)
Definition wp {A} (m : M A) (w : World)
              (Q : A -> World -> list Call -> Prop) : Prop :=
  Q (result m w) (after m w) (issued m w).

(** [hoare I m Q]: [m] keeps the invariant [I] and issues only calls that
    satisfy [Q]. *)
Definition hoare {A} (I : World -> Prop) (m : M A) (Q : Call -> Prop)
  : Prop :=
  forall w, I w -> I (after m w) /\ Forall Q (issued m w).

(** The invariant of the mouse handling: the pitch is within its limits
    and the remembered ordinate is a number. *)
Definition mouse_inv (w : World) : Prop :=
  pitch_in_range (pitch (globals w)) = true
  /\ is_nan (lastY (globals w)) = false.

(** The display mode is one of the four combinations. *)
Definition display_mode_ok (w : World) : Prop :=
  In (display_mode w) display_modes.

(** The value a pitch is clamped to by the two comparisons of
    [mouseCallback]. *)
Definition clamp_pitch (p : F32.t) : F32.t :=
  let p1 := if F32.ltb (F32.of_Z 89) p then F32.of_Z 89 else p in
  if F32.ltb p1 (- F32.of_Z 89) then - F32.of_Z 89 else p1.

(** The display mode the mode keys select, the later key winning; the
    current one when none of them is down. *)
Definition selected_mode (w : World) : PolygonMode * Z :=
  if key_down GLFW_KEY_4 (globals w) then (GL_FILL, 1)
  else if key_down GLFW_KEY_3 (globals w) then (GL_POINT, 0)
  else if key_down GLFW_KEY_2 (globals w) then (GL_LINE, 0)
  else if key_down GLFW_KEY_1 (globals w) then (GL_FILL, 0)
  else display_mode w.

(** The light angle after the light keys of one [processInput]. *)
Definition turned_light (w : World) : F32.t :=
  let a := lightAngle (globals w) in
  let a := if key_down GLFW_KEY_J (globals w) then a - F32.one else a in
  if key_down GLFW_KEY_L (globals w) then a + F32.one else a.

(** A key event that asks the loop to end. *)
Definition closes (e : Event) : bool :=
  match e with
  | CloseRequest => true
  | KeyEvent key _ action _ =>
      (key =? GLFW_KEY_ESCAPE)%Z && (action =? GLFW_PRESS)%Z
  | _ => false
  end.

(** A key array in which [key] is down, resp. up. *)
Definition down (key : Z) (w : World) : Prop :=
  key_down key (globals w) = true.
Definition up (key : Z) (w : World) : Prop :=
  key_down key (globals w) = false.

(** [n] frames of the loop body without events. *)
Definition idle_frame : Frame := {| polled := []; gl_errors := [] |}.
Fixpoint frames_run (n : nat) : M unit :=
  match n with
  | O => mret tt
  | S n' => frame idle_frame;; frames_run n'
  end.

End Program.

(** ** Scenarios for the closed examples *)

(** A frame in which the cursor first arrives at the centre of the window
    and then jumps by more than any pitch. *)
Definition far_jump : list Frame :=
  [ {| polled := [CursorPosEvent (F64.of_Z 512) (F64.of_Z 384);
                  CursorPosEvent (F64.of_Z 512) (F64.of_Z (- 10 ^ 30))];
       gl_errors := [] |} ].


(** The running program with the light turned to 2^24 degrees. *)
Definition world_at_2p24 : @World Sample.camera :=
  {| globals := set_lightAngle (F32.of_Z 16777216)
                               (@globals_initial Sample.camera);
     window := window_created; gl := gl_initial |}.

(** ** Further observations *)

Section Observations.
Context {LM : Libm} {GE : GlmExt} {CC : CameraClass}.

(** The OpenGL state after the calls, replayed from [s]. *)
Definition gl_run (calls : list Call) (s : GLState) : GLState :=
  fold_left (fun s c => gl_exec c s) calls s.

(** Every [glUniform...] among the calls, replayed from [s], finds the
    program of its location in use. *)
Fixpoint uploads_accepted (s : GLState) (calls : list Call) : bool :=
  match calls with
  | [] => true
  | c :: rest =>
      match c with
      | Uniform l _ =>
          match gl_program s with
          | Some p => Shader_eqb p (loc_program l)
          | None => false
          end
      | _ => true
      end && uploads_accepted (gl_exec c s) rest
  end.

(** A computation whose uploads are accepted from whatever state it
    starts in, and whose OpenGL state is the replay of its calls. *)
Definition well_targeted {A} (m : M A) : Prop :=
  forall w, uploads_accepted (gl w) (issued m w) = true
            /\ gl (after m w) = gl_run (issued m w) (gl w).

(** What is drawn: a model or the sky box. *)
Inductive Drawn := DrawnModel (m : Model3D) | DrawnSkyBox.

(** The draw calls among the calls, replayed from [s]: what is drawn, the
    shader handed to the draw, and the OpenGL state the draw runs in (the
    sky box has activated its shader by then). *)
Fixpoint draws (s : GLState) (calls : list Call)
  : list (Drawn * Shader * GLState) :=
  match calls with
  | [] => []
  | c :: rest =>
      match c with
      | Draw m p => [(DrawnModel m, p, gl_exec c s)]
      | SkyBoxDraw p _ _ => [(DrawnSkyBox, p, gl_exec c s)]
      | _ => []
      end ++ draws (gl_exec c s) rest
  end.

(** The target of a draw: the program in use, the framebuffer bound and
    the viewport. *)
Definition draw_target (d : Drawn * Shader * GLState)
  : Drawn * Shader * option Shader * Framebuffer * (Z * Z * Z * Z) :=
  (d.1.1, d.1.2, gl_program d.2, gl_framebuffer d.2, gl_viewport d.2).

(** The value a draw sees in the uniform [name] of its shader. *)
Definition seen (name : string) (d : Drawn * Shader * GLState)
  : option UniformValue :=
  gl_uniforms d.2 (Loc d.1.2 name).

(** The model matrix of the light marker. *)
Definition marker_model (g : Globals) : mat4 :=
  scale (translate (rotate identity (radians (lightAngle g))
                           (Vec3 F32.zero F32.one F32.zero))
                   (scale3 (Vec3 F32.zero F32.one F32.one) (F32.of_Z 10)))
        (Vec3 (F32.of_ratio 5 10) (F32.of_ratio 5 10) (F32.of_ratio 5 10)).

(** The calls [processInput] may issue. *)
Definition processInput_call (c : Call) : Prop :=
  match c with
  | CameraMove _ speed => speed = cameraSpeed
  | UseProgram s => s = myBasicShader
  | Uniform l (UMat4 _) => l = viewLoc
  | PolygonModeCall _ => True
  | _ => False
  end.

(** The directions of the [Camera::move] calls among the calls. *)
Definition camera_moves (calls : list Call) : list MOVE_DIRECTION :=
  flat_map (fun c => match c with
                     | CameraMove d _ => [d]
                     | _ => []
                     end) calls.

(** The camera keys with their directions, in the order [processInput]
    tests them, and the moves the keys that are down ask for. *)
Definition camera_keys : list (Z * MOVE_DIRECTION) :=
  [ (GLFW_KEY_W, MOVE_FORWARD); (GLFW_KEY_S, MOVE_BACKWARD);
    (GLFW_KEY_A, MOVE_LEFT); (GLFW_KEY_D, MOVE_RIGHT);
    (GLFW_KEY_SPACE, MOVE_UP); (GLFW_KEY_LEFT_SHIFT, MOVE_DOWN) ].
Definition requested_moves (g : Globals) : list MOVE_DIRECTION :=
  map snd (List.filter (fun kd => key_down kd.1 g) camera_keys).

Definition is_draw (c : Call) : bool :=
  match c with
  | Draw _ _ | SkyBoxDraw _ _ _ => true
  | _ => false
  end.

(** What has been loaded so far: shaders, models and the sky box. *)
Record Loaded := {
  shader_loaded : Shader -> bool;
  model_loaded : Model3D -> bool;
  skybox_loaded : bool;
}.

Definition nothing_loaded : Loaded :=
  {| shader_loaded := fun _ => false; model_loaded := fun _ => false;
     skybox_loaded := false |}.

Definition Model3D_eqb (a b : Model3D) : bool :=
  match a, b with
  | nanosuit, nanosuit | ground, ground | lightCube, lightCube => true
  | _, _ => false
  end.

Definition load (c : Call) (st : Loaded) : Loaded :=
  match c with
  | LoadShader s _ _ =>
      {| shader_loaded := fun s' => Shader_eqb s' s || shader_loaded st s';
         model_loaded := model_loaded st;
         skybox_loaded := skybox_loaded st |}
  | LoadModel m _ =>
      {| shader_loaded := shader_loaded st;
         model_loaded := fun m' => Model3D_eqb m' m || model_loaded st m';
         skybox_loaded := skybox_loaded st |}
  | SkyBoxLoad _ =>
      {| shader_loaded := shader_loaded st;
         model_loaded := model_loaded st;
         skybox_loaded := true |}
  | _ => st
  end.

(** A call that activates a shader, writes one of its uniforms or draws
    needs what it names to be loaded. *)
Definition needs_loaded (st : Loaded) (c : Call) : bool :=
  match c with
  | UseProgram s => shader_loaded st s
  | Uniform l _ => shader_loaded st (loc_program l)
  | Draw m s => model_loaded st m && shader_loaded st s
  | SkyBoxDraw s _ _ => skybox_loaded st && shader_loaded st s
  | _ => true
  end.

Fixpoint loaded_before_use (st : Loaded) (calls : list Call) : bool :=
  match calls with
  | [] => true
  | c :: rest => needs_loaded st c && loaded_before_use (load c st) rest
  end.

Definition all_loaded (st : Loaded) : Prop :=
  (forall s, shader_loaded st s = true)
  /\ (forall m, model_loaded st m = true)
  /\ skybox_loaded st = true.

Definition is_cursor_event (e : Event) : bool :=
  match e with
  | CursorPosEvent _ _ => true
  | _ => false
  end.

(** The globals the mouse handling owns, and the camera. *)
Definition mouse_state (g : Globals)
  : bool * F32.t * F32.t * F32.t * F32.t * Camera :=
  (firstMouse g, lastX g, lastY g, yaw g, pitch g, myCamera g).

(** The globals as [renderScene] finds them, with other values in the
    three matrices it overwrites. *)
Definition with_matrices (m v : mat4) (n : mat3) (w : World) : World :=
  {| globals := set_model m (set_view v (set_normalMatrix n (globals w)));
     window := window w; gl := gl w |}.

(** The projection [windowResizeCallback] computes. *)
Definition resized_projection (width height : Z) : mat4 :=
  perspective (radians (F32.of_Z 45)) (F32.of_Z width / F32.of_Z height)%f32
              (F32.of_ratio 1 10) (F32.of_Z 20).
End Observations.

Definition is_neg_zero (x : spec_float) : bool :=
  match x with
  | S754_zero true => true
  | _ => false
  end.

(** The program after start-up: cursor captured, no mouse event seen yet. *)
Definition world_captured : @World Sample.camera :=
  {| globals := @globals_initial Sample.camera;
     window := set_win_cursor GLFW_CURSOR_DISABLED window_created;
     gl := gl_initial |}.

(** The program with [J] and [L], [Q] and [E] held down. *)
Definition world_opposite_keys : @World Sample.camera :=
  {| globals :=
       set_pressedKeys
         (<[Z.to_nat GLFW_KEY_J := true]>
            (<[Z.to_nat GLFW_KEY_L := true]>
               (<[Z.to_nat GLFW_KEY_Q := true]>
                  (<[Z.to_nat GLFW_KEY_E := true]> (replicate 1024 false)))))
         (@globals_initial Sample.camera);
     window := window_created; gl := gl_initial |}.

(** * Properties *)

(** The proofs treat arithmetic and the GLM functions as given: they are
    unfolded only where a lemma is about them. *)

#[local] Arguments F32.add : simpl never.
#[local] Arguments F32.sub : simpl never.
#[local] Arguments F32.mul : simpl never.
#[local] Arguments F32.div : simpl never.
#[local] Arguments F32.sqrt : simpl never.
#[local] Arguments F32.opp : simpl never.
#[local] Arguments F32.of_Z : simpl never.
#[local] Arguments F32.of_ratio : simpl never.
#[local] Arguments F32.ltb : simpl never.
#[local] Arguments F32.leb : simpl never.
#[local] Arguments F64.sub : simpl never.
#[local] Arguments double_to_float : simpl never.
#[local] Arguments float_to_double : simpl never.
#[local] Arguments rotate : simpl never.
#[local] Arguments translate : simpl never.
#[local] Arguments scale : simpl never.
#[local] Arguments glm.mul : simpl never.
#[local] Arguments mul_vec4 : simpl never.
#[local] Arguments normalize : simpl never.
#[local] Arguments radians : simpl never.
#[local] Arguments scale3 : simpl never.
#[local] Arguments mat3_of_mat4 : simpl never.
#[local] Arguments vec3_of_vec4 : simpl never.
#[local] Arguments computeLightSpaceTrMatrix : simpl never.
#[local] Arguments lightPos : simpl never.

(** ** Rounding never produces NaN *)

Lemma shr_1_nonneg (mrs : shr_record) :
  0 <= shr_m mrs -> 0 <= shr_m (shr_1 mrs).
Proof.
  destruct mrs as [m r s]; cbn.
  destruct m as [|p|p]; [cbn; lia | destruct p; cbn; lia | lia].
Qed.

Lemma iter_pos_shr_1_nonneg (n : positive) :
  forall mrs, 0 <= shr_m mrs -> 0 <= shr_m (SpecFloat.iter_pos shr_1 n mrs).
Proof.
  induction n as [n IH | n IH |]; intros mrs Hm; cbn.
  - apply IH, IH, shr_1_nonneg, Hm.
  - apply IH, IH, Hm.
  - apply shr_1_nonneg, Hm.
Qed.

Lemma shr_nonneg (mrs : shr_record) (e n : Z) :
  0 <= shr_m mrs -> 0 <= shr_m (shr mrs e n).1.
Proof.
  intros Hm. destruct n; cbn; [assumption | | assumption].
  apply iter_pos_shr_1_nonneg, Hm.
Qed.

Lemma shr_fexp_nonneg (prec emax m e : Z) (l : location) :
  0 <= m -> 0 <= shr_m (shr_fexp prec emax m e l).1.
Proof.
  intros Hm. unfold shr_fexp. apply shr_nonneg.
  destruct l as [|[]]; exact Hm.
Qed.

Lemma round_nearest_even_nonneg (m : Z) (l : location) :
  0 <= m -> 0 <= round_nearest_even m l.
Proof.
  intros Hm. destruct l as [|[]]; cbn; try lia.
  destruct (Z.even m); lia.
Qed.

Lemma binary_round_aux_not_nan (prec emax : Z) (s : bool) (m e : Z)
                               (l : location) :
  0 <= m -> is_nan (binary_round_aux prec emax s m e l) = false.
Proof.
  intros Hm. unfold binary_round_aux.
  pose proof (shr_fexp_nonneg prec emax m e l Hm) as H1.
  destruct (shr_fexp prec emax m e l) as [mrs' e'] eqn:E1. cbn in H1.
  pose proof (shr_fexp_nonneg prec emax _ e' loc_Exact
                (round_nearest_even_nonneg _ (loc_of_shr_record mrs') H1)) as H2.
  destruct (shr_fexp prec emax _ e' loc_Exact) as [mrs'' e''] eqn:E2.
  cbn in H2. destruct (shr_m mrs'') as [|p|p]; [reflexivity | | lia].
  destruct (e'' <=? emax - prec); reflexivity.
Qed.

Lemma binary_round_not_nan (prec emax : Z) (s : bool) (m : positive) (e : Z) :
  is_nan (binary_round prec emax s m e) = false.
Proof.
  unfold binary_round.
  destruct (shl_align m e _) as [mz ez].
  apply binary_round_aux_not_nan. lia.
Qed.

Lemma binary_normalize_not_nan (prec emax m e : Z) (szero : bool) :
  is_nan (binary_normalize prec emax m e szero) = false.
Proof.
  destruct m; cbn; [reflexivity | apply binary_round_not_nan ..].
Qed.

Lemma SFadd_not_nan (prec emax : Z) (x y : spec_float) :
  is_finite x = true -> is_nan y = false ->
  is_nan (SFadd prec emax x y) = false.
Proof.
  destruct x as [sx|sx| |sx mx ex], y as [sy|sy| |sy my ey];
    cbn; try discriminate; intros _ _; try reflexivity.
  - destruct sx, sy; reflexivity.
  - apply binary_normalize_not_nan.
Qed.

Lemma SFsub_not_nan (prec emax : Z) (x y : spec_float) :
  is_nan x = false -> is_finite y = true ->
  is_nan (SFsub prec emax x y) = false.
Proof.
  destruct x as [sx|sx| |sx mx ex], y as [sy|sy| |sy my ey];
    cbn; try discriminate; intros _ _; try reflexivity.
  - destruct sx, sy; reflexivity.
  - apply binary_normalize_not_nan.
Qed.

Lemma SFmul_finite_not_nan (prec emax : Z) (x : spec_float) (s : bool)
                           (m : positive) (e : Z) :
  is_nan x = false ->
  is_nan (SFmul prec emax x (S754_finite s m e)) = false.
Proof.
  destruct x as [sx|sx| |sx mx ex]; cbn; try discriminate; intros _;
    try reflexivity.
  apply binary_round_aux_not_nan. lia.
Qed.

Lemma convert_not_nan (prec emax : Z) (x : spec_float) :
  is_nan x = false -> is_nan (convert prec emax x) = false.
Proof.
  destruct x; cbn; try discriminate; intros _; try reflexivity.
  apply binary_normalize_not_nan.
Qed.

(** ** Comparison *)

Lemma SFcompare_antisym (x y : spec_float) :
  SFcompare y x = option_map CompOpp (SFcompare x y).
Proof.
  destruct x as [sx|sx| |sx mx ex], y as [sy|sy| |sy my ey]; cbn;
    try reflexivity; try (destruct sx; reflexivity);
    try (destruct sy; reflexivity); try (destruct sx, sy; reflexivity).
  f_equal. rewrite (Z.compare_antisym ex ey).
  assert (Hc : Pos.compare_cont Eq my mx
               = CompOpp (Pos.compare_cont Eq mx my))
    by (symmetry; apply (Pos.compare_cont_antisym mx my Eq)).
  rewrite Hc.
  destruct sx, sy, (ex ?= ey); cbn; try reflexivity;
    destruct (Pos.compare_cont Eq mx my); reflexivity.
Qed.

Lemma SFcompare_not_nan (x y : spec_float) :
  is_nan x = false -> is_nan y = false -> exists c, SFcompare x y = Some c.
Proof.
  destruct x, y; cbn; try discriminate; intros _ _; eexists; reflexivity.
Qed.

(** ** The pitch limits *)

Lemma clamp_pitch_in_range (p : F32.t) :
  is_nan p = false -> pitch_in_range (clamp_pitch p) = true.
Proof.
  intros Hp.
  assert (Hc : is_nan (F32.of_Z 89) = false) by reflexivity.
  assert (Hc' : is_nan (F32.opp (F32.of_Z 89)) = false) by reflexivity.
  destruct (SFcompare_not_nan _ _ Hc Hp) as [c1 E1].
  destruct (SFcompare_not_nan _ _ Hp Hc') as [c2 E2].
  pose proof (SFcompare_antisym (F32.of_Z 89) p) as A1.
  pose proof (SFcompare_antisym p (F32.opp (F32.of_Z 89))) as A2.
  rewrite E1 in A1. rewrite E2 in A2. cbn [option_map] in A1, A2.
  unfold clamp_pitch, pitch_in_range, F32.ltb, F32.leb, SFltb, SFleb.
  rewrite E1.
  destruct c1; [ | reflexivity | ]; rewrite ?E2, ?A1, ?A2;
    destruct c2; cbn [CompOpp]; rewrite ?A1, ?A2; reflexivity.
Qed.

Lemma pitch_in_range_finite (p : F32.t) :
  pitch_in_range p = true -> is_finite p = true.
Proof.
  destruct p as [s|s| |s m e]; try reflexivity;
    [destruct s | ]; vm_compute; intros E; discriminate E.
Qed.

(** The pitch [mouseCallback] computes from a pitch within the limits, a
    remembered ordinate that is a number and a finite new ordinate. *)
Lemma mouse_pitch_in_range (p ly : F32.t) (ypos : F64.t) :
  pitch_in_range p = true -> is_nan ly = false -> is_finite ypos = true ->
  pitch_in_range
    (clamp_pitch
       (F32.add p (F32.mul (double_to_float
                              (F64.sub (float_to_double ly) ypos))
                           (F32.of_ratio 1 10)))) = true.
Proof.
  intros Hp Hly Hy. apply clamp_pitch_in_range.
  apply SFadd_not_nan; [apply pitch_in_range_finite, Hp |].
  change (F32.of_ratio 1 10) with (S754_finite false 13421773 (-27)).
  apply SFmul_finite_not_nan, convert_not_nan, SFsub_not_nan;
    [apply convert_not_nan, Hly | exact Hy].
Qed.

Lemma double_to_float_not_nan (x : F64.t) :
  is_finite x = true -> is_nan (double_to_float x) = false.
Proof.
  intros Hx. apply convert_not_nan. destruct x; (discriminate || reflexivity).
Qed.

(** ** Integers in binary32 *)

Lemma digits2_pos_bounds (p : positive) :
  2 ^ (Zpos (digits2_pos p) - 1) <= Zpos p < 2 ^ Zpos (digits2_pos p).
Proof.
  induction p as [p IH | p IH |]; cbn [digits2_pos].
  - rewrite Pos2Z.inj_succ.
    replace (Z.succ (Zpos (digits2_pos p)) - 1)
      with (Z.succ (Zpos (digits2_pos p) - 1)) by lia.
    rewrite !Z.pow_succ_r by lia. lia.
  - rewrite Pos2Z.inj_succ.
    replace (Z.succ (Zpos (digits2_pos p)) - 1)
      with (Z.succ (Zpos (digits2_pos p) - 1)) by lia.
    rewrite !Z.pow_succ_r by lia. lia.
  - cbn. lia.
Qed.

Lemma digits2_pos_unique (p : positive) (d : Z) :
  2 ^ (d - 1) <= Zpos p < 2 ^ d -> Zpos (digits2_pos p) = d.
Proof.
  intros Hd. pose proof (digits2_pos_bounds p) as Hb.
  set (d' := Zpos (digits2_pos p)) in *.
  assert (0 < d') by (unfold d'; lia).
  assert (0 < d).
  { destruct (Z.lt_trichotomy d 0) as [Hn | [Hz | Hp]]; [ | | exact Hp].
    - rewrite (Z.pow_neg_r 2 d) in Hd by lia. lia.
    - subst d. cbn in Hd. lia. }
  destruct (Z.lt_trichotomy d d') as [Hlt | [Heq | Hgt]]; [ | exact (eq_sym Heq) | ].
  - assert (2 ^ d <= 2 ^ (d' - 1)) by (apply Z.pow_le_mono_r; lia). lia.
  - assert (2 ^ d' <= 2 ^ (d - 1)) by (apply Z.pow_le_mono_r; lia). lia.
Qed.

Lemma iter_xO_Z (j p : positive) :
  Zpos (Pos.iter xO p j) = Zpos p * 2 ^ Zpos j.
Proof.
  induction j as [|j IH] using Pos.peano_ind.
  - cbn. lia.
  - rewrite Pos.iter_succ, Pos2Z.inj_succ, Z.pow_succ_r by lia.
    rewrite Pos2Z.inj_xO, IH. lia.
Qed.

Lemma shr_zeros (j : positive) :
  forall q : positive,
    SpecFloat.iter_pos shr_1 j
      {| shr_m := Zpos (Pos.iter xO q j); shr_r := false; shr_s := false |}
    = {| shr_m := Zpos q; shr_r := false; shr_s := false |}.
Proof.
  induction j as [j IH | j IH |]; intros q; cbn.
  - rewrite IH. apply IH.
  - rewrite IH. apply IH.
  - reflexivity.
Qed.

Lemma int_mantissa_digits (p : positive) :
  Zpos p < 2 ^ 24 ->
  let d := Zpos (digits2_pos p) in
  0 < d <= 24
  /\ 0 < Zpos p * 2 ^ (24 - d)
  /\ Zpos (digits2_pos (Z.to_pos (Zpos p * 2 ^ (24 - d)))) = 24.
Proof.
  intros Hp d. pose proof (digits2_pos_bounds p) as Hb. fold d in Hb.
  assert (Hd0 : 0 < d) by (unfold d; lia).
  assert (Hd : d <= 24).
  { destruct (Z_le_gt_dec d 24) as [Hle | Hgt]; [exact Hle |].
    assert (2 ^ 24 <= 2 ^ (d - 1)) by (apply Z.pow_le_mono_r; lia). lia. }
  assert (Hpow : 0 < 2 ^ (24 - d)) by (apply Z.pow_pos_nonneg; lia).
  split; [lia |]. split; [nia |].
  apply digits2_pos_unique. rewrite Z2Pos.id by nia.
  replace (2 ^ (24 - 1)) with (2 ^ (d - 1) * 2 ^ (24 - d))
    by (rewrite <- Z.pow_add_r by lia; f_equal; lia).
  replace (2 ^ 24) with (2 ^ d * 2 ^ (24 - d))
    by (rewrite <- Z.pow_add_r by lia; f_equal; lia).
  nia.
Qed.

Lemma binary_round_aux_exact (s : bool) (mx ex : Z) (m : positive) (E : Z) :
  shr_fexp 24 128 mx ex loc_Exact
    = ({| shr_m := Zpos m; shr_r := false; shr_s := false |}, E) ->
  Zpos (digits2_pos m) = 24 -> -149 <= E <= 104 ->
  binary_round_aux 24 128 s mx ex loc_Exact = S754_finite s m E.
Proof.
  intros Hshr Hd HE. unfold binary_round_aux. rewrite Hshr.
  cbn [shr_m loc_of_shr_record round_nearest_even].
  unfold shr_fexp, fexp, emin. cbn [Zdigits2 shr_record_of_loc]. rewrite Hd.
  replace (Z.max (24 + E - 24) (3 - 128 - 24) - E) with 0 by lia.
  cbn [shr shr_m].
  replace (E <=? 128 - 24) with true by lia. reflexivity.
Qed.

Lemma binary_round_int (s : bool) (p : positive) :
  Zpos p < 2 ^ 24 -> binary_round 24 128 s p 0 = int_float s p.
Proof.
  intros Hp. destruct (int_mantissa_digits p Hp) as (Hd & Hm & Hdm).
  unfold int_float, binary_round.
  set (d := Zpos (digits2_pos p)) in *.
  set (m := Z.to_pos (Zpos p * 2 ^ (24 - d))) in *.
  assert (Hshl : shl_align p 0 (fexp 24 128 (d + 0)) = (m, d - 24)).
  { unfold fexp, emin, shl_align.
    replace (Z.max (d + 0 - 24) (3 - 128 - 24) - 0) with (d - 24) by lia.
    destruct (d - 24) as [|j|j] eqn:Ej; [ | lia | ].
    - f_equal. unfold m. replace (24 - d) with 0 by lia.
      rewrite Z.pow_0_r, Z.mul_1_r. reflexivity.
    - replace (Z.max (d + 0 - 24) (3 - 128 - 24)) with (Zneg j) by lia.
      f_equal. apply Pos2Z.inj. rewrite iter_xO_Z. unfold m.
      rewrite Z2Pos.id by lia. do 2 f_equal. lia. }
  rewrite Hshl. apply binary_round_aux_exact; [ | exact Hdm | lia].
  unfold shr_fexp, fexp, emin. cbn [Zdigits2 shr_record_of_loc]. rewrite Hdm.
  replace (Z.max (24 + (d - 24) - 24) (3 - 128 - 24) - (d - 24)) with 0 by lia.
  reflexivity.
Qed.

Lemma binary_round_int_shifted (s : bool) (p q : positive) :
  Zpos p < 2 ^ 24 -> Zpos q = Zpos p * 2 ^ 23 ->
  binary_round 24 128 s q (-23) = int_float s p.
Proof.
  intros Hp Hq. destruct (int_mantissa_digits p Hp) as (Hd & Hm & Hdm).
  pose proof (digits2_pos_bounds p) as Hb.
  unfold int_float, binary_round.
  set (d := Zpos (digits2_pos p)) in *.
  set (m := Z.to_pos (Zpos p * 2 ^ (24 - d))) in *.
  assert (Hdq : Zpos (digits2_pos q) = d + 23).
  { apply digits2_pos_unique. rewrite Hq.
    replace (d + 23 - 1) with (d - 1 + 23) by lia.
    rewrite !Z.pow_add_r by lia. nia. }
  rewrite Hdq.
  assert (Hshl : shl_align q (-23) (fexp 24 128 (d + 23 + -23)) = (q, -23)).
  { unfold fexp, emin, shl_align.
    replace (Z.max (d + 23 + -23 - 24) (3 - 128 - 24) - -23) with (d - 1)
      by lia.
    destruct (d - 1) as [|j|j] eqn:Ej; [reflexivity | reflexivity | lia]. }
  rewrite Hshl. apply binary_round_aux_exact; [ | exact Hdm | lia].
  unfold shr_fexp, fexp, emin. cbn [Zdigits2 shr_record_of_loc]. rewrite Hdq.
  replace (Z.max (d + 23 + -23 - 24) (3 - 128 - 24) - -23) with (d - 1) by lia.
  destruct (d - 1) as [|j|j] eqn:Ej; [ | | lia]; cbn [shr].
  - f_equal; [ | lia]. f_equal. unfold m.
    rewrite Z2Pos.id by lia. rewrite Hq. do 2 f_equal. lia.
  - f_equal; [ | lia].
    assert (Hqm : q = Pos.iter xO m j).
    { apply Pos2Z.inj. rewrite iter_xO_Z. unfold m.
      rewrite Z2Pos.id by lia. rewrite Hq, <- Z.mul_assoc.
      rewrite <- Z.pow_add_r by lia. do 2 f_equal. lia. }
    rewrite Hqm. apply shr_zeros.
Qed.

Lemma of_Z_int (n : Z) :
  n <> 0 -> - 2 ^ 24 < n < 2 ^ 24 ->
  F32.of_Z n = int_float (n <? 0) (Z.to_pos (Z.abs n)).
Proof.
  intros Hn Hr. unfold F32.of_Z, binary_normalize.
  destruct n as [|p|p]; [congruence | | ]; cbn [Z.ltb Z.compare Z.abs Z.to_pos];
    apply binary_round_int; lia.
Qed.

Lemma normalize_shifted (k : Z) :
  - 2 ^ 24 < k < 2 ^ 24 ->
  binary_normalize 24 128 (k * 2 ^ 23) (-23) false = F32.of_Z k.
Proof.
  intros Hk. destruct k as [|p|p].
  - reflexivity.
  - unfold F32.of_Z. change (Zpos p * 2 ^ 23) with (Zpos (p * 8388608)).
    cbn [binary_normalize].
    rewrite (binary_round_int_shifted false p (p * 8388608)),
            binary_round_int by (reflexivity || lia).
    reflexivity.
  - unfold F32.of_Z. change (Zneg p * 2 ^ 23) with (Zneg (p * 8388608)).
    cbn [binary_normalize].
    rewrite (binary_round_int_shifted true p (p * 8388608)),
            binary_round_int by (reflexivity || lia).
    reflexivity.
Qed.

(** The mantissa of an integer, aligned to the exponent of [1.0f]. *)
Lemma shl_align_int (p : positive) :
  Zpos p < 2 ^ 24 ->
  let d := Zpos (digits2_pos p) in
  Zpos (shl_align (Z.to_pos (Zpos p * 2 ^ (24 - d))) (d - 24) (-23)).1
  = Zpos p * 2 ^ 23.
Proof.
  intros Hp d. destruct (int_mantissa_digits p Hp) as (Hd & Hm & Hdm).
  fold d in Hd, Hm, Hdm. unfold shl_align.
  replace (-23 - (d - 24)) with (1 - d) by lia.
  destruct (1 - d) as [|j|j] eqn:Ej; [ | lia | ]; cbn [fst].
  - rewrite Z2Pos.id by lia. do 2 f_equal. lia.
  - rewrite iter_xO_Z, Z2Pos.id by lia.
    rewrite <- Z.mul_assoc, <- Z.pow_add_r by lia. do 2 f_equal. lia.
Qed.

Lemma add_int_one (s : bool) (p : positive) :
  Zpos p < 2 ^ 24 ->
  F32.add (int_float s p) F32.one
  = binary_normalize 24 128 ((cond_Zopp s (Zpos p) + 1) * 2 ^ 23) (-23) false.
Proof.
  intros Hp. destruct (int_mantissa_digits p Hp) as (Hd & Hm & Hdm).
  pose proof (shl_align_int p Hp) as Hal. cbv zeta in Hal.
  change F32.one with (S754_finite false 8388608 (-23)).
  unfold int_float, F32.add, SFadd.
  replace (Z.min (Zpos (digits2_pos p) - 24) (-23)) with (-23) by lia.
  rewrite Hal. change (shl_align 8388608 (-23) (-23)).1 with 8388608%positive.
  f_equal. change (2 ^ 23) with 8388608. destruct s; cbn [cond_Zopp]; lia.
Qed.

Lemma sub_int_one (s : bool) (p : positive) :
  Zpos p < 2 ^ 24 ->
  F32.sub (int_float s p) F32.one
  = binary_normalize 24 128 ((cond_Zopp s (Zpos p) - 1) * 2 ^ 23) (-23) false.
Proof.
  intros Hp. destruct (int_mantissa_digits p Hp) as (Hd & Hm & Hdm).
  pose proof (shl_align_int p Hp) as Hal. cbv zeta in Hal.
  change F32.one with (S754_finite false 8388608 (-23)).
  unfold int_float, F32.sub, SFsub.
  replace (Z.min (Zpos (digits2_pos p) - 24) (-23)) with (-23) by lia.
  rewrite Hal. change (shl_align 8388608 (-23) (-23)).1 with 8388608%positive.
  f_equal. change (2 ^ 23) with 8388608. destruct s; cbn [cond_Zopp]; lia.
Qed.

Lemma cond_Zopp_abs (n : Z) :
  cond_Zopp (n <? 0) (Zpos (Z.to_pos (Z.abs n))) = n \/ n = 0.
Proof. destruct n; cbn; auto. Qed.

(** [x + 1.0f] and [x - 1.0f] are exact on the integers up to [2^24]. *)
Lemma F32_add_one (n : Z) :
  - 2 ^ 24 <= n < 2 ^ 24 -> F32.add (F32.of_Z n) F32.one = F32.of_Z (n + 1).
Proof.
  intros Hn.
  destruct (Z.eq_dec n (- 2 ^ 24)) as [-> | H1]; [vm_compute; reflexivity |].
  destruct (Z.eq_dec n (2 ^ 24 - 1)) as [-> | H2]; [vm_compute; reflexivity |].
  destruct (Z.eq_dec n 0) as [-> | H3]; [vm_compute; reflexivity |].
  rewrite of_Z_int by lia. rewrite add_int_one by lia.
  destruct (cond_Zopp_abs n) as [-> | ?]; [ | congruence].
  apply normalize_shifted. lia.
Qed.

Lemma F32_sub_one (n : Z) :
  - 2 ^ 24 < n <= 2 ^ 24 -> F32.sub (F32.of_Z n) F32.one = F32.of_Z (n - 1).
Proof.
  intros Hn.
  destruct (Z.eq_dec n (2 ^ 24)) as [-> | H1]; [vm_compute; reflexivity |].
  destruct (Z.eq_dec n (- 2 ^ 24 + 1)) as [-> | H2]; [vm_compute; reflexivity |].
  destruct (Z.eq_dec n 0) as [-> | H3]; [vm_compute; reflexivity |].
  rewrite of_Z_int by lia. rewrite sub_int_one by lia.
  destruct (cond_Zopp_abs n) as [-> | ?]; [ | congruence].
  apply normalize_shifted. lia.
Qed.

Section Properties.
Context {LM : Libm} {GE : GlmExt} {CC : CameraClass}.

(** ** Rules for computations *)

Lemma hoare_ret {A} (I : World -> Prop) (Q : Call -> Prop) (a : A) :
  hoare I (mret a) Q.
Proof. intros w Hw. split; [exact Hw | constructor]. Qed.

Lemma hoare_bind {A B} (I : World -> Prop) (Q : Call -> Prop)
                 (m : M A) (k : A -> M B) :
  hoare I m Q -> (forall a, hoare I (k a) Q) -> hoare I (m ≫= k) Q.
Proof.
  intros Hm Hk w Hw.
  destruct (Hm w Hw) as [H1 H2].
  destruct (Hk (result m w) (after m w) H1) as [H3 H4].
  split; [exact H3 | apply Forall_app; split; assumption].
Qed.

Lemma hoare_read {A} (I : World -> Prop) (Q : Call -> Prop)
                 (f : Globals -> A) :
  hoare I (read f) Q.
Proof. intros w Hw. split; [exact Hw | constructor]. Qed.

Lemma hoare_read_window {A} (I : World -> Prop) (Q : Call -> Prop)
                        (f : Window -> A) :
  hoare I (read_window f) Q.
Proof. intros w Hw. split; [exact Hw | constructor]. Qed.

Lemma hoare_assign (I : World -> Prop) (Q : Call -> Prop)
                   (f : Globals -> Globals) :
  (forall w, I w ->
     I {| globals := f (globals w); window := window w; gl := gl w |}) ->
  hoare I (assign f) Q.
Proof. intros Hf w Hw. split; [apply Hf, Hw | constructor]. Qed.

Lemma hoare_update_window (I : World -> Prop) (Q : Call -> Prop)
                          (f : Window -> Window) :
  (forall w, I w ->
     I {| globals := globals w; window := f (window w); gl := gl w |}) ->
  hoare I (update_window f) Q.
Proof. intros Hf w Hw. split; [apply Hf, Hw | constructor]. Qed.

Lemma hoare_call (I : World -> Prop) (Q : Call -> Prop) (c : Call) :
  (forall w, I w ->
     I {| globals := globals w; window := window w;
          gl := gl_exec c (gl w) |}) ->
  Q c -> hoare I (call c) Q.
Proof.
  intros Hc Hq w Hw. split; [apply Hc, Hw | repeat constructor; exact Hq].
Qed.

Lemma hoare_glCheckError (I : World -> Prop) (Q : Call -> Prop)
                         (line : Z) (pending : list Z) :
  (forall code, Q (ReportGLError code line)) ->
  hoare I (glCheckError line pending) Q.
Proof.
  intros Hq w Hw. split; [exact Hw |].
  unfold issued, glCheckError; cbn. apply Forall_map, Forall_forall.
  intros code _. apply Hq.
Qed.

Lemma hoare_when (I : World -> Prop) (Q : Call -> Prop) (b : bool)
                 (m : M unit) :
  hoare I m Q -> hoare I (when b m) Q.
Proof. intros Hm. destruct b; [exact Hm | apply hoare_ret]. Qed.

(** The functions of the program, for unfolding. *)
Hint Unfold
  useShaderProgram glUniformMatrix4fv glUniformMatrix3fv glUniform3fv
  glUniform1i glViewport glBindFramebuffer glPolygonMode glfwSetInputMode
  glfwSetWindowShouldClose myCamera_move myCamera_rotate
  myCamera_getViewMatrix
  windowResizeCallback keyboardCallback
  processInput_move processInput_turn processInput_camera
  processInput_model processInput_modes processInput_light processInput
  initOpenGLWindow setWindowCallbacks initOpenGLState initModels
  initShaders initSkyBox initUniforms initFBO
  drawObjects renderScene cleanup : program.

Lemma gl_set_uniform_polygonMode (l : Location) (v : UniformValue)
                                 (s : GLState) :
  gl_polygonMode (gl_set_uniform l v s) = gl_polygonMode s.
Proof.
  unfold gl_set_uniform. destruct (gl_program s) as [p|]; [ | reflexivity].
  destruct (Shader_eqb p (loc_program l)); reflexivity.
Qed.

Lemma set_display_mode_ok (Q : Call -> Prop) (m : PolygonMode) (flat : Z) :
  In (m, flat) display_modes -> Q (PolygonModeCall m) ->
  hoare display_mode_ok (set_display_mode m flat) Q.
Proof.
  intros Hin Hq w _. split; [exact Hin | repeat constructor; exact Hq].
Qed.

(** Invariants that speak of the pitch, the remembered ordinate, the
    display mode, the light angle, the keys or the close flag are kept by
    every step that assigns none of them. *)
Ltac hoare_side :=
  let w := fresh "w" in
  let Hw := fresh "Hw" in
  intros w Hw;
  unfold mouse_inv, display_mode_ok, display_mode, up, down, key_down in *;
  cbn in *; rewrite ?gl_set_uniform_polygonMode in *;
  (exact Hw || (intuition congruence)).

Ltac hoare_call_side :=
  solve [exact I | cbn; trivial | intros; cbn; trivial].

Ltac hoare_step :=
  lazymatch goal with
  | |- hoare _ (mret _) _ => apply hoare_ret
  | |- hoare _ (read _) _ => apply hoare_read
  | |- hoare _ (read_window _) _ => apply hoare_read_window
  | |- hoare _ (assign _) _ => apply hoare_assign; hoare_side
  | |- hoare _ (update_window _) _ => apply hoare_update_window; hoare_side
  | |- hoare _ (call _) _ => apply hoare_call; [hoare_side | hoare_call_side]
  | |- hoare _ (glCheckError _ _) _ =>
      apply hoare_glCheckError; hoare_call_side
  | |- hoare display_mode_ok (set_display_mode _ _) _ =>
      apply set_display_mode_ok; [cbn; tauto | hoare_call_side]
  | |- hoare _ (set_display_mode _ _) _ => unfold set_display_mode
  | |- hoare _ (mbind _ _) _ => apply hoare_bind; [| intros ?]
  | |- hoare _ (when _ _) _ => apply hoare_when
  | |- hoare _ (if ?b then _ else _) _ => destruct b
  | |- hoare _ (match ?e with _ => _ end) _ => destruct e
  | |- hoare _ _ _ => progress autounfold with program
  end.

Ltac hoare_go := repeat hoare_step.

(** Symbolic execution. *)

Lemma wp_ret {A} (a : A) (w : World) (Q : A -> World -> list Call -> Prop) :
  Q a w [] -> wp (mret a) w Q.
Proof. exact (fun q => q). Qed.

Lemma wp_bind {A B} (m : M A) (k : A -> M B) (w : World)
              (Q : B -> World -> list Call -> Prop) :
  wp m w (fun a w1 l1 => wp (k a) w1 (fun b w2 l2 => Q b w2 (l1 ++ l2))) ->
  wp (m ≫= k) w Q.
Proof. exact (fun q => q). Qed.

Lemma wp_read {A} (f : Globals -> A) (w : World)
              (Q : A -> World -> list Call -> Prop) :
  Q (f (globals w)) w [] -> wp (read f) w Q.
Proof. exact (fun q => q). Qed.

Lemma wp_read_window {A} (f : Window -> A) (w : World)
                     (Q : A -> World -> list Call -> Prop) :
  Q (f (window w)) w [] -> wp (read_window f) w Q.
Proof. exact (fun q => q). Qed.

Lemma wp_assign (f : Globals -> Globals) (w : World)
                (Q : unit -> World -> list Call -> Prop) :
  Q tt {| globals := f (globals w); window := window w; gl := gl w |} [] ->
  wp (assign f) w Q.
Proof. exact (fun q => q). Qed.

Lemma wp_update_window (f : Window -> Window) (w : World)
                       (Q : unit -> World -> list Call -> Prop) :
  Q tt {| globals := globals w; window := f (window w); gl := gl w |} [] ->
  wp (update_window f) w Q.
Proof. exact (fun q => q). Qed.

Lemma wp_call (c : Call) (w : World)
              (Q : unit -> World -> list Call -> Prop) :
  Q tt {| globals := globals w; window := window w;
          gl := gl_exec c (gl w) |} [c] ->
  wp (call c) w Q.
Proof. exact (fun q => q). Qed.

Lemma wp_when (b : bool) (m : M unit) (w : World)
              (Q : unit -> World -> list Call -> Prop) :
  (if b then wp m w Q else Q tt w []) -> wp (when b m) w Q.
Proof. destruct b; exact (fun q => q). Qed.

Lemma wp_hoare {A} (I : World -> Prop) (Q : Call -> Prop) (m : M A) :
  (forall w, I w -> wp m w (fun _ w' l => I w' /\ Forall Q l)) ->
  hoare I m Q.
Proof. exact (fun q => q). Qed.

Lemma after_bind {A B} (m : M A) (k : A -> M B) (w : World) :
  after (m ≫= k) w = after (k (result m w)) (after m w).
Proof. reflexivity. Qed.

Lemma issued_bind {A B} (m : M A) (k : A -> M B) (w : World) :
  issued (m ≫= k) w = issued m w ++ issued (k (result m w)) (after m w).
Proof. reflexivity. Qed.

Lemma result_bind {A B} (m : M A) (k : A -> M B) (w : World) :
  result (m ≫= k) w = result (k (result m w)) (after m w).
Proof. reflexivity. Qed.

Ltac wp_step :=
  lazymatch goal with
  | |- wp (mret _) _ _ => apply wp_ret
  | |- wp (read _) _ _ => apply wp_read
  | |- wp (read_window _) _ _ => apply wp_read_window
  | |- wp (assign _) _ _ => apply wp_assign
  | |- wp (update_window _) _ _ => apply wp_update_window
  | |- wp (call _) _ _ => apply wp_call
  | |- wp (mbind _ _) _ _ => apply wp_bind
  | |- wp (when _ _) _ _ => apply wp_when
  | |- wp (if ?b then _ else _) _ _ => destruct b eqn:?
  | |- if ?b then _ else _ => destruct b eqn:?
  | |- wp (set_display_mode _ _) _ _ => unfold set_display_mode
  | |- wp _ _ _ => progress autounfold with program
  end; cbn.

Ltac wp_go := repeat wp_step.


(** ** The frame: light-space matrix, viewport, normal matrices *)

(** C1.  In every frame the light-space matrix uploaded while the depth-map
    shader is in use and the one uploaded while the basic shader is in use
    are the same value: the result of [computeLightSpaceTrMatrix] on the
    globals the frame starts with.  These are the only two uploads to that
    uniform, and both programs hold the value when the frame ends. *)
Theorem renderScene_lightSpaceTrMatrix_shared (w : World) :
  let M := UMat4 (computeLightSpaceTrMatrix (globals w)) in
  uploads "lightSpaceTrMatrix" (issued renderScene w)
    = [(depthMapShader, M); (myBasicShader, M)]
  /\ gl_uniforms (gl (after renderScene w))
       (Loc depthMapShader "lightSpaceTrMatrix") = Some M
  /\ gl_uniforms (gl (after renderScene w))
       (Loc myBasicShader "lightSpaceTrMatrix") = Some M.
Proof. repeat split; reflexivity. Qed.

(** C5.  A frame sets the viewport twice, first to the shadow-map
    resolution and then to the dimensions the window reports; the frame
    leaves the window alone, so when it ends the viewport is the window's. *)
Theorem renderScene_restores_viewport (w : World) :
  viewports (issued renderScene w)
    = [(0, 0, 2048, 2048); (0, 0, win_width (window w), win_height (window w))]
  /\ window (after renderScene w) = window w
  /\ gl_viewport (gl (after renderScene w))
     = (0, 0, win_width (window (after renderScene w)),
              win_height (window (after renderScene w))).
Proof. repeat split; reflexivity. Qed.

(** C8.  In the depth pass [drawObjects] neither assigns [normalMatrix] nor
    uploads to a uniform of that name, and the stored uniform is as it was.
    In the colour pass it uploads, for each of the two objects and before
    the object is drawn, the inverse transpose of view times that object's
    model matrix, and [normalMatrix] ends as the second of them. *)
Theorem drawObjects_normalMatrix (shader : Shader) (w : World) :
  (normalMatrix (globals (after (drawObjects shader true) w))
     = normalMatrix (globals w)
   /\ uploads "normalMatrix" (issued (drawObjects shader true) w) = []
   /\ forall s, gl_uniforms (gl (after (drawObjects shader true) w))
                  (Loc s "normalMatrix")
                = gl_uniforms (gl w) (Loc s "normalMatrix"))
  /\ (let g := globals w in
      let n1 := normal_matrix_of (view g) (nanosuit_model g) in
      let n2 := normal_matrix_of (view g) ground_model in
      issued (drawObjects shader false) w
        = [UseProgram shader;
           Uniform (Loc shader "model") (UMat4 (nanosuit_model g));
           Uniform (Loc shader "normalMatrix") (UMat3 n1);
           Draw nanosuit shader;
           Uniform (Loc shader "model") (UMat4 ground_model);
           Uniform (Loc shader "normalMatrix") (UMat3 n2);
           Draw ground shader]
      /\ normalMatrix (globals (after (drawObjects shader false) w)) = n2).
Proof.
  split; [split; [reflexivity | split; [reflexivity |]] | split; reflexivity].
  intros s; destruct shader, s; reflexivity.
Qed.

(** ** The light: direction, matrix and marker *)

(** C2, as the code has it.  The vector uploaded as [lightDir] is the
    rotated base direction itself, not normalized; the light-space matrix
    of the same frame is built from the normalization of exactly that
    vector, scaled by 10. *)
Theorem renderScene_light_direction (w : World) :
  let v := rotated_base_direction (lightAngle (globals w)) in
  let M :=
    glm.mul (ortho (- F32.of_Z 10) (F32.of_Z 10) (- F32.of_Z 10)
                   (F32.of_Z 10) F32.one (F32.of_Z 50))
            (lookAt (scale3 (normalize v) (F32.of_Z 10)) (splat3 F32.zero)
                    (Vec3 F32.zero F32.one F32.zero)) in
  uploads "lightDir" (issued renderScene w) = [(myBasicShader, UVec3 v)]
  /\ uploads "lightSpaceTrMatrix" (issued renderScene w)
     = [(depthMapShader, UMat4 M); (myBasicShader, UMat4 M)].
Proof. split; reflexivity. Qed.

(** ** The keyboard *)

(** The globals after [keyboardCallback]: only [pressedKeys] can differ. *)
Lemma keyboardCallback_globals (key scancode action mode : Z) (w : World) :
  globals (after (keyboardCallback key scancode action mode) w)
  = if (0 <=? key) && (key <? 1024) then
      if action =? GLFW_PRESS
      then set_pressedKeys (<[Z.to_nat key := true]> (pressedKeys (globals w)))
                           (globals w)
      else if action =? GLFW_RELEASE
           then set_pressedKeys
                  (<[Z.to_nat key := false]> (pressedKeys (globals w)))
                  (globals w)
           else globals w
    else globals w.
Proof.
  destruct w as [g [width height cursor close] s].
  unfold keyboardCallback, after, when.
  destruct ((key =? GLFW_KEY_ESCAPE) && (action =? GLFW_PRESS));
    destruct ((key =? GLFW_KEY_M) && (action =? GLFW_PRESS));
    destruct ((0 <=? key) && (key <? 1024));
    destruct (action =? GLFW_PRESS); destruct (action =? GLFW_RELEASE);
    try reflexivity; destruct cursor; reflexivity.
Qed.

(** C10.  [keyboardCallback] keeps the length of [pressedKeys]; a key
    outside [0, 1024) leaves the array as it is; a key inside changes no
    entry but its own, which a press sets and a release clears; any other
    action changes nothing. *)
Theorem keyboardCallback_pressedKeys (key scancode action mode : Z)
                                     (w : World) :
  let keys := pressedKeys (globals w) in
  let keys' :=
    pressedKeys (globals (after (keyboardCallback key scancode action mode) w)) in
  length keys' = length keys
  /\ (~ (0 <= key < 1024) -> keys' = keys)
  /\ (forall i : nat, i <> Z.to_nat key -> keys' !! i = keys !! i)
  /\ (0 <= key < 1024 -> (Z.to_nat key < length keys)%nat ->
      (action = GLFW_PRESS -> keys' !! Z.to_nat key = Some true)
      /\ (action = GLFW_RELEASE -> keys' !! Z.to_nat key = Some false))
  /\ (action <> GLFW_PRESS -> action <> GLFW_RELEASE -> keys' = keys).
Proof.
  cbv zeta. rewrite keyboardCallback_globals.
  repeat split.
  - repeat case_match; cbn; rewrite ?length_insert; reflexivity.
  - intros Hout. destruct ((0 <=? key) && (key <? 1024)) eqn:Hin;
      [exfalso; apply Hout; lia | reflexivity].
  - intros i Hi. repeat case_match; cbn;
      rewrite ?list_lookup_insert_ne by congruence; reflexivity.
  - intros Hp. subst action.
    replace ((0 <=? key) && (key <? 1024)) with true by lia.
    cbn. apply list_lookup_insert_eq. assumption.
  - intros Hr. subst action.
    replace ((0 <=? key) && (key <? 1024)) with true by lia.
    cbn. apply list_lookup_insert_eq. assumption.
  - intros Hp Hr.
    replace (action =? GLFW_PRESS) with false by lia.
    replace (action =? GLFW_RELEASE) with false by lia.
    destruct ((0 <=? key) && (key <? 1024)); reflexivity.
Qed.

(** ** The mouse *)

Ltac use_clamp K :=
  unfold clamp_pitch in K;
  repeat match goal with
         | E : F32.ltb _ _ = _ |- _ => rewrite E in K; cbn in K
         end;
  exact K.

Lemma mouseCallback_hoare (xpos ypos : F64.t) :
  is_finite xpos = true -> is_finite ypos = true ->
  hoare mouse_inv (mouseCallback xpos ypos) rotate_pitch_ok.
Proof.
  intros Hx Hy. apply wp_hoare.
  intros [g [width height cursor close] s] [Hp Hl]. cbn in Hp, Hl.
  pose proof (double_to_float_not_nan ypos Hy) as Hl'.
  pose proof (mouse_pitch_in_range (pitch g) (lastY g) ypos Hp Hl Hy) as K1.
  pose proof (mouse_pitch_in_range (pitch g) (double_to_float ypos) ypos
                Hp Hl' Hy) as K2.
  unfold mouseCallback. wp_go;
    try (split; [split; assumption | constructor]);
    (split; [split; cbn; [| exact Hl'] | repeat constructor; cbn]);
    first [use_clamp K1 | use_clamp K2].
Qed.

(** ** The event loop *)

Lemma glfwPollEvents_hoare (I : World -> Prop) (Q : Call -> Prop)
                           (P : Event -> Prop) (events : list Event) :
  (forall e, P e -> hoare I (dispatch e) Q) ->
  Forall P events -> hoare I (glfwPollEvents events) Q.
Proof.
  intros Hd Hall. induction Hall as [|e rest He _ IH]; cbn [glfwPollEvents].
  - apply hoare_ret.
  - apply hoare_bind; [apply Hd, He | intros _; exact IH].
Qed.

Lemma loop_hoare (I : World -> Prop) (Q : Call -> Prop)
                 (P : Frame -> Prop) (frames : list Frame) :
  (forall f, P f -> hoare I (frame f) Q) ->
  Forall P frames -> hoare I (loop frames) Q.
Proof.
  intros Hf Hall. induction Hall as [|f rest Hp _ IH]; cbn [loop].
  - apply hoare_bind; [apply hoare_read_window | intros close].
    destruct close; apply hoare_ret.
  - apply hoare_bind; [apply hoare_read_window | intros close].
    destruct close; [apply hoare_ret |].
    apply hoare_bind; [apply Hf, Hp | intros _; exact IH].
Qed.

(** The initialisation sequence of [main], up to the first error check. *)
Ltac main_hoare loop_lemma :=
  unfold main;
  lazymatch goal with
  | |- hoare _ (match ?created with _ => _ end) _ => destruct created
  end;
  [ hoare_go
  | repeat (apply hoare_bind; [solve [hoare_go] | intros ?]);
    apply hoare_bind; [loop_lemma | intros ?; hoare_go] ].

(** *** The pitch through the whole program *)

Lemma dispatch_mouse_inv (e : Event) :
  finite_event e -> hoare mouse_inv (dispatch e) rotate_pitch_ok.
Proof.
  destruct e as [key scancode action mode | xpos ypos | width height | ];
    intros He; cbn [dispatch].
  - hoare_go.
  - destruct He as [Hx Hy]. apply mouseCallback_hoare; assumption.
  - hoare_go.
  - hoare_go.
Qed.

Lemma frame_mouse_inv (f : Frame) :
  finite_frame f -> hoare mouse_inv (frame f) rotate_pitch_ok.
Proof.
  intros Hf. unfold frame.
  apply hoare_bind; [hoare_go | intros _].
  apply hoare_bind; [hoare_go | intros _].
  apply hoare_bind;
    [apply (glfwPollEvents_hoare _ _ finite_event);
       [exact dispatch_mouse_inv | exact Hf]
    | intros _].
  hoare_go.
Qed.

Lemma main_mouse_inv (created : option string) (startup_errors : list Z)
                     (frames : list Frame) :
  Forall finite_frame frames ->
  hoare mouse_inv (main created startup_errors frames) rotate_pitch_ok.
Proof.
  intros Hfin.
  main_hoare ltac:(apply (loop_hoare _ _ finite_frame);
                   [exact frame_mouse_inv | exact Hfin]).
Qed.

Lemma world_initial_mouse_inv : mouse_inv world_initial.
Proof. split; reflexivity. Qed.

(** C4.  Run the program from its initial state over any frames whose
    cursor events carry finite coordinates, of whatever size: every pitch
    passed to [Camera::rotate] lies in [-89, 89], and so does the global
    [pitch] at the end. *)
Theorem pitch_within_limits (created : option string)
                            (startup_errors : list Z)
                            (frames : list Frame) :
  Forall finite_frame frames ->
  Forall rotate_pitch_ok
         (issued (main created startup_errors frames) world_initial)
  /\ pitch_in_range
       (pitch (globals (after (main created startup_errors frames)
                              world_initial))) = true.
Proof.
  intros Hfin.
  destruct (main_mouse_inv created startup_errors frames Hfin
              world_initial world_initial_mouse_inv) as [[Hp _] Hc].
  split; assumption.
Qed.

(** *** The display mode *)

Lemma dispatch_display_mode (e : Event) :
  hoare display_mode_ok (dispatch e) (fun _ => True).
Proof.
  destruct e; cbn [dispatch];
    [hoare_go | unfold mouseCallback; hoare_go | hoare_go | hoare_go].
Qed.

Lemma frame_display_mode (f : Frame) :
  hoare display_mode_ok (frame f) (fun _ => True).
Proof.
  unfold frame.
  apply hoare_bind; [hoare_go | intros _].
  apply hoare_bind; [hoare_go | intros _].
  apply hoare_bind;
    [apply (glfwPollEvents_hoare _ _ (fun _ => True));
       [intros e _; apply dispatch_display_mode
       | apply Forall_forall; trivial]
    | intros _].
  hoare_go.
Qed.

Lemma main_display_mode (created : option string) (startup_errors : list Z)
                        (frames : list Frame) :
  hoare display_mode_ok (main created startup_errors frames)
        (fun _ => True).
Proof.
  main_hoare ltac:(apply (loop_hoare _ _ (fun _ => True));
                   [intros f _; apply frame_display_mode
                   | apply Forall_forall; trivial]).
Qed.

(** [processInput] leaves the key array alone. *)
Lemma processInput_pressedKeys (w : World) :
  pressedKeys (globals (after processInput w)) = pressedKeys (globals w).
Proof.
  assert (Hh : hoare (fun w' => pressedKeys (globals w')
                                = pressedKeys (globals w))
                     processInput (fun _ => True)) by hoare_go.
  apply (Hh w eq_refl).
Qed.

Lemma processInput_modes_spec (w : World) :
  display_mode (after processInput_modes w) = selected_mode w.
Proof.
  change (wp processInput_modes w
            (fun _ w' _ => display_mode w' = selected_mode w)).
  unfold selected_mode, display_mode.
  wp_go; unfold key_down in *; cbn in *;
    repeat match goal with
           | E : default false _ = _ |- _ => rewrite E; clear E
           end;
    reflexivity.
Qed.

Lemma processInput_display_mode (w : World) :
  display_mode (after processInput w) = selected_mode w.
Proof.
  unfold processInput. rewrite !after_bind.
  set (w1 := after processInput_camera w).
  set (w2 := after processInput_model w1).
  assert (Hk1 : pressedKeys (globals w1) = pressedKeys (globals w)
                /\ display_mode w1 = display_mode w).
  { assert (Hh : hoare (fun w' => pressedKeys (globals w')
                                  = pressedKeys (globals w)
                                  /\ display_mode w' = display_mode w)
                       processInput_camera (fun _ => True)) by hoare_go.
    apply (Hh w (conj eq_refl eq_refl)). }
  assert (Hk2 : pressedKeys (globals w2) = pressedKeys (globals w1)
                /\ display_mode w2 = display_mode w1).
  { assert (Hh : hoare (fun w' => pressedKeys (globals w')
                                  = pressedKeys (globals w1)
                                  /\ display_mode w' = display_mode w1)
                       processInput_model (fun _ => True)) by hoare_go.
    apply (Hh w1 (conj eq_refl eq_refl)). }
  assert (Hl : display_mode (after processInput_light
                                   (after processInput_modes w2))
               = display_mode (after processInput_modes w2)).
  { assert (Hh : hoare (fun w' => display_mode w'
                                  = display_mode (after processInput_modes w2))
                       processInput_light (fun _ => True)) by hoare_go.
    apply (Hh _ eq_refl). }
  rewrite Hl, processInput_modes_spec.
  unfold selected_mode, key_down.
  destruct Hk1 as [Hk1 Hd1], Hk2 as [Hk2 Hd2].
  rewrite Hk2, Hk1, Hd2, Hd1. reflexivity.
Qed.

Lemma key_down_keyboardCallback (key scancode action mode j : Z)
                                (w : World) :
  0 <= key < 1024 ->
  (Z.to_nat key < length (pressedKeys (globals w)))%nat -> 0 <= j ->
  key_down j (globals (after (keyboardCallback key scancode action mode) w))
  = if j =? key then
      if action =? GLFW_PRESS then true
      else if action =? GLFW_RELEASE then false
           else key_down j (globals w)
    else key_down j (globals w).
Proof.
  intros Hkey Hlen Hj. rewrite keyboardCallback_globals.
  replace ((0 <=? key) && (key <? 1024)) with true by lia.
  destruct (Z.eqb_spec j key) as [-> | Hne];
    destruct (action =? GLFW_PRESS); [ | destruct (action =? GLFW_RELEASE)
                                       | | destruct (action =? GLFW_RELEASE)];
    unfold key_down; cbn [pressedKeys set_pressedKeys];
    rewrite ?list_lookup_insert_eq by assumption;
    rewrite ?list_lookup_insert_ne by lia; reflexivity.
Qed.

Lemma keyboardCallback_length (key scancode action mode : Z) (w : World) :
  length (pressedKeys
            (globals (after (keyboardCallback key scancode action mode) w)))
  = length (pressedKeys (globals w)).
Proof.
  rewrite keyboardCallback_globals.
  repeat case_match; cbn; rewrite ?length_insert; reflexivity.
Qed.

Lemma key_down_processInput (j : Z) (w : World) :
  key_down j (globals (after processInput w)) = key_down j (globals w).
Proof. unfold key_down. rewrite processInput_pressedKeys. reflexivity. Qed.

Ltac key_side :=
  unfold GLFW_KEY_1, GLFW_KEY_2, GLFW_KEY_3, GLFW_KEY_4, GLFW_KEY_J,
         GLFW_KEY_L in *;
  first [assumption | lia].

Lemma keyboardCallback_display_mode (key scancode action mode : Z)
                                    (w : World) :
  display_mode (after (keyboardCallback key scancode action mode) w)
  = display_mode w.
Proof.
  assert (Hh : hoare (fun w' => display_mode w' = display_mode w)
                     (keyboardCallback key scancode action mode)
                     (fun _ => True)) by hoare_go.
  apply (Hh w eq_refl).
Qed.

(** C7.  The program starts in (fill, smooth); whatever the frames, the
    display mode it ends in is one of the four combinations, in which
    flat shading goes with fill only.  The mode keys are polled: one
    [processInput] selects the mode by the mode keys that are down, the
    later of the keys 1, 2, 3, 4 winning.  So, after key 2 has been
    pressed and processed, pressing key 1 brings back (fill, smooth) when
    key 2 has been released and key 1 is still down at the next
    [processInput]; with key 2 still held the mode stays (line, smooth),
    and so it does when key 1 is pressed and released before the next
    [processInput]. *)
Theorem display_mode_machine :
  display_mode world_initial = (GL_FILL, 0)
  /\ (forall created startup_errors frames,
        In (display_mode (after (main created startup_errors frames)
                                world_initial))
           display_modes)
  /\ (forall m flat, In (m, flat) display_modes -> flat = 1 -> m = GL_FILL)
  /\ (forall w, display_mode (after processInput w) = selected_mode w)
  /\ (forall w,
        length (pressedKeys (globals w)) = 1024%nat ->
        up GLFW_KEY_1 w -> up GLFW_KEY_2 w ->
        up GLFW_KEY_3 w -> up GLFW_KEY_4 w ->
        let key2 := keyboardCallback GLFW_KEY_2 0 GLFW_PRESS 0;;
                    processInput in
        let key1 := keyboardCallback GLFW_KEY_2 0 GLFW_RELEASE 0;;
                    keyboardCallback GLFW_KEY_1 0 GLFW_PRESS 0;;
                    processInput in
        let key1_held := keyboardCallback GLFW_KEY_1 0 GLFW_PRESS 0;;
                         processInput in
        let key1_tapped := keyboardCallback GLFW_KEY_2 0 GLFW_RELEASE 0;;
                           keyboardCallback GLFW_KEY_1 0 GLFW_PRESS 0;;
                           keyboardCallback GLFW_KEY_1 0 GLFW_RELEASE 0;;
                           processInput in
        display_mode (after key2 w) = (GL_LINE, 0)
        /\ display_mode (after (key2;; key1) w) = (GL_FILL, 0)
        /\ display_mode (after (key2;; key1_held) w) = (GL_LINE, 0)
        /\ display_mode (after (key2;; key1_tapped) w) = (GL_LINE, 0)).
Proof.
  split; [reflexivity |].
  split.
  { intros created startup_errors frames.
    apply (main_display_mode created startup_errors frames world_initial).
    left; reflexivity. }
  split.
  { intros m flat Hin Hflat. cbn in Hin.
    destruct Hin as [E | [E | [E | [E | []]]]]; congruence. }
  split; [exact processInput_display_mode |].
  intros w Hlen U1 U2 U3 U4. cbv zeta. unfold up in *.
  rewrite !after_bind. cbv beta.
  set (wa := after (keyboardCallback GLFW_KEY_2 0 GLFW_PRESS 0) w).
  assert (Hla : length (pressedKeys (globals wa)) = 1024%nat)
    by (unfold wa; rewrite keyboardCallback_length; exact Hlen).
  assert (Ka : forall j, 0 <= j ->
               key_down j (globals wa)
               = if j =? GLFW_KEY_2 then true else key_down j (globals w)).
  { intros j Hj. unfold wa.
    rewrite key_down_keyboardCallback
      by (rewrite ?Hlen; key_side). reflexivity. }
  set (wb := after processInput wa).
  assert (Hlb : length (pressedKeys (globals wb)) = 1024%nat)
    by (unfold wb; rewrite processInput_pressedKeys; exact Hla).
  set (wc := after (keyboardCallback GLFW_KEY_2 0 GLFW_RELEASE 0) wb).
  assert (Hlc : length (pressedKeys (globals wc)) = 1024%nat)
    by (unfold wc; rewrite keyboardCallback_length; exact Hlb).
  assert (Kc : forall j, 0 <= j ->
               key_down j (globals wc)
               = if j =? GLFW_KEY_2 then false else key_down j (globals w)).
  { intros j Hj. unfold wc.
    rewrite key_down_keyboardCallback by (rewrite ?Hlb; key_side).
    unfold wb. rewrite key_down_processInput, Ka by exact Hj.
    destruct (j =? GLFW_KEY_2); reflexivity. }
  set (wd := after (keyboardCallback GLFW_KEY_1 0 GLFW_PRESS 0) wc).
  assert (Hld : length (pressedKeys (globals wd)) = 1024%nat)
    by (unfold wd; rewrite keyboardCallback_length; exact Hlc).
  assert (Kd : forall j, 0 <= j ->
               key_down j (globals wd)
               = if j =? GLFW_KEY_1 then true
                 else if j =? GLFW_KEY_2 then false
                      else key_down j (globals w)).
  { intros j Hj. unfold wd.
    rewrite key_down_keyboardCallback by (rewrite ?Hlc; key_side).
    rewrite Kc by exact Hj. reflexivity. }
  set (we := after (keyboardCallback GLFW_KEY_1 0 GLFW_PRESS 0) wb).
  assert (Ke : forall j, 0 <= j ->
               key_down j (globals we)
               = if j =? GLFW_KEY_1 then true
                 else if j =? GLFW_KEY_2 then true
                      else key_down j (globals w)).
  { intros j Hj. unfold we.
    rewrite key_down_keyboardCallback by (rewrite ?Hlb; key_side).
    unfold wb. rewrite key_down_processInput, Ka by exact Hj.
    reflexivity. }
  set (wf := after (keyboardCallback GLFW_KEY_1 0 GLFW_RELEASE 0) wd).
  assert (Kf : forall j, 0 <= j ->
               key_down j (globals wf)
               = if j =? GLFW_KEY_1 then false
                 else if j =? GLFW_KEY_2 then false
                      else key_down j (globals w)).
  { intros j Hj. unfold wf.
    rewrite key_down_keyboardCallback by (rewrite ?Hld; key_side).
    rewrite Kd by exact Hj. destruct (j =? GLFW_KEY_1); reflexivity. }
  assert (Hb : display_mode wb = (GL_LINE, 0)).
  { unfold wb. rewrite processInput_display_mode.
    unfold selected_mode. rewrite !Ka by key_side.
    cbn [Z.eqb GLFW_KEY_1 GLFW_KEY_2 GLFW_KEY_3 GLFW_KEY_4 Pos.eqb].
    rewrite U4, U3. reflexivity. }
  assert (Hf : display_mode wf = display_mode wb).
  { unfold wf, wd, wc. rewrite !keyboardCallback_display_mode.
    reflexivity. }
  split; [exact Hb |]. split; [ | split].
  - rewrite processInput_display_mode.
    unfold selected_mode. rewrite !Kd by key_side.
    cbn [Z.eqb GLFW_KEY_1 GLFW_KEY_2 GLFW_KEY_3 GLFW_KEY_4 Pos.eqb].
    rewrite U4, U3. reflexivity.
  - rewrite processInput_display_mode.
    unfold selected_mode. rewrite !Ke by key_side.
    cbn [Z.eqb GLFW_KEY_1 GLFW_KEY_2 GLFW_KEY_3 GLFW_KEY_4 Pos.eqb].
    rewrite U4, U3. reflexivity.
  - rewrite processInput_display_mode.
    unfold selected_mode. rewrite !Kf by key_side.
    cbn [Z.eqb GLFW_KEY_1 GLFW_KEY_2 GLFW_KEY_3 GLFW_KEY_4 Pos.eqb].
    rewrite U4, U3, Hf. exact Hb.
Qed.

(** *** Leaving the loop *)


Lemma loop_closed (frames : list Frame) (w : World) :
  win_shouldClose (window w) = true -> result (loop frames) w = true.
Proof.
  intros Hc. destruct frames; cbn [loop]; rewrite result_bind;
    unfold read_window at 1, result at 2, after; cbn [fst snd];
    rewrite Hc; reflexivity.
Qed.

Lemma dispatch_keeps_closing (e : Event) :
  hoare (fun w => win_shouldClose (window w) = true) (dispatch e)
        (fun _ => True).
Proof.
  destruct e; cbn [dispatch];
    [hoare_go | unfold mouseCallback; hoare_go | hoare_go | hoare_go].
Qed.

Lemma dispatch_closes (e : Event) (w : World) :
  closes e = true -> win_shouldClose (window (after (dispatch e) w)) = true.
Proof.
  destruct e as [key scancode action mode | | | ]; cbn [closes dispatch];
    try discriminate; intros Hc; [ | reflexivity].
  apply andb_true_iff in Hc. destruct Hc as [Hk Ha].
  apply Z.eqb_eq in Hk, Ha. subst key action.
  destruct w as [g [width height cursor close] s]. reflexivity.
Qed.

Lemma glfwPollEvents_closes (events : list Event) :
  Exists (fun e => closes e = true) events ->
  forall w, win_shouldClose (window (after (glfwPollEvents events) w)) = true.
Proof.
  induction 1 as [e rest He | e rest _ IH]; intros w;
    cbn [glfwPollEvents]; rewrite after_bind.
  - assert (Hk : hoare (fun w => win_shouldClose (window w) = true)
                       (glfwPollEvents rest) (fun _ => True)).
    { apply (glfwPollEvents_hoare _ _ (fun _ => True));
        [intros e' _; apply dispatch_keeps_closing
        | apply Forall_forall; trivial]. }
    apply Hk, dispatch_closes, He.
  - apply IH.
Qed.

Lemma frame_closes (f : Frame) (w : World) :
  Exists (fun e => closes e = true) (polled f) ->
  win_shouldClose (window (after (frame f) w)) = true.
Proof.
  intros Hex. unfold frame.
  do 3 (rewrite after_bind; cbv beta).
  assert (Hk : hoare (fun w => win_shouldClose (window w) = true)
                     (call SwapBuffers;; glCheckError 650 (gl_errors f))
                     (fun _ => True)) by hoare_go.
  apply Hk. apply (glfwPollEvents_closes _ Hex).
Qed.



(** ** The light angle *)

Lemma processInput_light_spec (w : World) :
  lightAngle (globals (after processInput_light w)) = turned_light w.
Proof.
  change (wp processInput_light w
            (fun _ w' _ => lightAngle (globals w') = turned_light w)).
  unfold turned_light.
  wp_go; unfold key_down in *; cbn in *;
    repeat match goal with
           | E : default false _ = _ |- _ => rewrite E; clear E
           end;
    reflexivity.
Qed.

Lemma processInput_lightAngle (w : World) :
  lightAngle (globals (after processInput w)) = turned_light w.
Proof.
  unfold processInput. rewrite !after_bind.
  set (w3 := after processInput_modes
               (after processInput_model (after processInput_camera w))).
  assert (Hk : pressedKeys (globals w3) = pressedKeys (globals w)
               /\ lightAngle (globals w3) = lightAngle (globals w)).
  { assert (Hh : hoare (fun w' => pressedKeys (globals w')
                                  = pressedKeys (globals w)
                                  /\ lightAngle (globals w')
                                     = lightAngle (globals w))
                       (processInput_camera;; processInput_model;;
                        processInput_modes)
                       (fun _ => True)) by hoare_go.
    pose proof (Hh w (conj eq_refl eq_refl)) as [Hi _].
    rewrite !after_bind in Hi. exact Hi. }
  rewrite processInput_light_spec. unfold turned_light, key_down.
  destruct Hk as [-> ->]. reflexivity.
Qed.

Lemma frame_idle_light (w : World) :
  lightAngle (globals (after (frame idle_frame) w)) = turned_light w
  /\ pressedKeys (globals (after (frame idle_frame) w))
     = pressedKeys (globals w).
Proof.
  unfold frame. rewrite after_bind. cbv beta.
  cbn [polled gl_errors idle_frame glfwPollEvents].
  assert (Hh : hoare (fun w' => lightAngle (globals w')
                                = lightAngle (globals (after processInput w))
                                /\ pressedKeys (globals w')
                                   = pressedKeys
                                       (globals (after processInput w)))
                     (renderScene;; mret tt;; call SwapBuffers;;
                      glCheckError 650 [])
                     (fun _ => True)) by hoare_go.
  destruct (Hh _ (conj eq_refl eq_refl)) as [[Ha Hk] _].
  rewrite Ha, Hk, processInput_lightAngle, processInput_pressedKeys.
  split; reflexivity.
Qed.

(** [k] frames with [L] down and [J] up add [1.0f] to the angle [k]
    times; with [J] down and [L] up they subtract it. *)
Lemma frames_run_L (k : nat) :
  forall w : World,
    down GLFW_KEY_L w -> up GLFW_KEY_J w ->
    lightAngle (globals (after (frames_run k) w))
    = Nat.iter k (fun a => F32.add a F32.one) (lightAngle (globals w))
    /\ pressedKeys (globals (after (frames_run k) w))
       = pressedKeys (globals w).
Proof.
  induction k as [|k IH]; intros w HL HJ.
  - split; reflexivity.
  - cbn [frames_run]. rewrite after_bind, Nat.iter_succ_r.
    destruct (frame_idle_light w) as [Ht Hk].
    unfold up, down in *.
    destruct (IH (after (frame idle_frame) w)) as [Hr Hk'];
      unfold up, down, key_down; rewrite ?Hk; try assumption.
    rewrite Hr, Hk', Hk, Ht. unfold turned_light. rewrite HJ, HL.
    split; reflexivity.
Qed.

Lemma frames_run_J (k : nat) :
  forall w : World,
    down GLFW_KEY_J w -> up GLFW_KEY_L w ->
    lightAngle (globals (after (frames_run k) w))
    = Nat.iter k (fun a => F32.sub a F32.one) (lightAngle (globals w))
    /\ pressedKeys (globals (after (frames_run k) w))
       = pressedKeys (globals w).
Proof.
  induction k as [|k IH]; intros w HJ HL.
  - split; reflexivity.
  - cbn [frames_run]. rewrite after_bind, Nat.iter_succ_r.
    destruct (frame_idle_light w) as [Ht Hk].
    unfold up, down in *.
    destruct (IH (after (frame idle_frame) w)) as [Hr Hk'];
      unfold up, down, key_down; rewrite ?Hk; try assumption.
    rewrite Hr, Hk', Hk, Ht. unfold turned_light. rewrite HJ, HL.
    split; reflexivity.
Qed.

Lemma keyboardCallback_lightAngle (key scancode action mode : Z)
                                  (w : World) :
  lightAngle (globals (after (keyboardCallback key scancode action mode) w))
  = lightAngle (globals w).
Proof. rewrite keyboardCallback_globals. repeat case_match; reflexivity. Qed.

(** The light angle after the round trip of the key scenario, for any
    starting angle. *)
Lemma light_angle_scenario (w : World) :
  length (pressedKeys (globals w)) = 1024%nat ->
  up GLFW_KEY_J w -> up GLFW_KEY_L w ->
  let increments :=
    keyboardCallback GLFW_KEY_L 0 GLFW_PRESS 0;; frames_run 180 in
  let decrements :=
    keyboardCallback GLFW_KEY_L 0 GLFW_RELEASE 0;;
    keyboardCallback GLFW_KEY_J 0 GLFW_PRESS 0;; frames_run 180 in
  lightAngle (globals (after increments w))
  = Nat.iter 180 (fun a => F32.add a F32.one) (lightAngle (globals w))
  /\ lightAngle (globals (after (increments;; decrements) w))
     = Nat.iter 180 (fun a => F32.sub a F32.one)
         (Nat.iter 180 (fun a => F32.add a F32.one)
                   (lightAngle (globals w))).
Proof.
  intros Hlen HJ HL. cbv zeta. unfold up in *.
  rewrite !after_bind. cbv beta.
  set (wa := after (keyboardCallback GLFW_KEY_L 0 GLFW_PRESS 0) w).
  assert (Hla : length (pressedKeys (globals wa)) = 1024%nat)
    by (unfold wa; rewrite keyboardCallback_length; exact Hlen).
  assert (Ka : forall j, 0 <= j ->
               key_down j (globals wa)
               = if j =? GLFW_KEY_L then true else key_down j (globals w)).
  { intros j Hj. unfold wa.
    rewrite key_down_keyboardCallback by (rewrite ?Hlen; key_side).
    reflexivity. }
  destruct (frames_run_L 180 wa) as [Hb Hkb].
  { unfold down. rewrite Ka by key_side. reflexivity. }
  { unfold up. rewrite Ka by key_side. exact HJ. }
  assert (Haa : lightAngle (globals wa) = lightAngle (globals w))
    by (unfold wa; apply keyboardCallback_lightAngle).
  rewrite Haa in Hb.
  set (wb := after (frames_run 180) wa) in *.
  assert (Kb : forall j, key_down j (globals wb) = key_down j (globals wa))
    by (intros j; unfold key_down; rewrite Hkb; reflexivity).
  assert (Hlb : length (pressedKeys (globals wb)) = 1024%nat)
    by (rewrite Hkb; exact Hla).
  set (wc := after (keyboardCallback GLFW_KEY_L 0 GLFW_RELEASE 0) wb).
  assert (Hlc : length (pressedKeys (globals wc)) = 1024%nat)
    by (unfold wc; rewrite keyboardCallback_length; exact Hlb).
  assert (Kc : forall j, 0 <= j ->
               key_down j (globals wc)
               = if j =? GLFW_KEY_L then false else key_down j (globals w)).
  { intros j Hj. unfold wc.
    rewrite key_down_keyboardCallback by (rewrite ?Hlb; key_side).
    rewrite Kb, Ka by exact Hj.
    destruct (j =? GLFW_KEY_L); reflexivity. }
  set (wd := after (keyboardCallback GLFW_KEY_J 0 GLFW_PRESS 0) wc).
  assert (Kd : forall j, 0 <= j ->
               key_down j (globals wd)
               = if j =? GLFW_KEY_J then true
                 else if j =? GLFW_KEY_L then false
                      else key_down j (globals w)).
  { intros j Hj. unfold wd.
    rewrite key_down_keyboardCallback by (rewrite ?Hlc; key_side).
    rewrite Kc by exact Hj. reflexivity. }
  destruct (frames_run_J 180 wd) as [He _].
  { unfold down. rewrite Kd by key_side. reflexivity. }
  { unfold up. rewrite Kd by key_side. reflexivity. }
  assert (Had : lightAngle (globals wd) = lightAngle (globals wb))
    by (unfold wd, wc; rewrite !keyboardCallback_lightAngle; reflexivity).
  rewrite Had, Hb in He.
  split; [exact Hb | exact He].
Qed.

Lemma iter_add_one (k : nat) :
  forall n : Z,
    - 2 ^ 24 <= n -> n + Z.of_nat k <= 2 ^ 24 ->
    Nat.iter k (fun a => F32.add a F32.one) (F32.of_Z n)
    = F32.of_Z (n + Z.of_nat k).
Proof.
  induction k as [|k IH]; intros n Hlo Hhi.
  - cbn. rewrite Z.add_0_r. reflexivity.
  - rewrite Nat.iter_succ_r, F32_add_one by lia.
    rewrite IH by lia. f_equal. lia.
Qed.

Lemma iter_sub_one (k : nat) :
  forall n : Z,
    - 2 ^ 24 <= n - Z.of_nat k -> n <= 2 ^ 24 ->
    Nat.iter k (fun a => F32.sub a F32.one) (F32.of_Z n)
    = F32.of_Z (n - Z.of_nat k).
Proof.
  induction k as [|k IH]; intros n Hlo Hhi.
  - cbn. rewrite Z.sub_0_r. reflexivity.
  - rewrite Nat.iter_succ_r, F32_sub_one by lia.
    rewrite IH by lia. f_equal. lia.
Qed.

(** C6, as the code has it.  From a light angle that is an integer number
    of degrees [n] with [-2^24 <= n <= 2^24 - 180], 180 frames with [L]
    down bring the angle to [n + 180], and 180 further frames with [J]
    down bring it back to the starting value exactly; the rotated light
    direction computed from it is then the same vector. *)
Theorem light_angle_round_trip (n : Z) (w : World) :
  - 2 ^ 24 <= n <= 2 ^ 24 - 180 ->
  lightAngle (globals w) = F32.of_Z n ->
  length (pressedKeys (globals w)) = 1024%nat ->
  up GLFW_KEY_J w -> up GLFW_KEY_L w ->
  let increments :=
    keyboardCallback GLFW_KEY_L 0 GLFW_PRESS 0;; frames_run 180 in
  let decrements :=
    keyboardCallback GLFW_KEY_L 0 GLFW_RELEASE 0;;
    keyboardCallback GLFW_KEY_J 0 GLFW_PRESS 0;; frames_run 180 in
  lightAngle (globals (after increments w)) = F32.of_Z (n + 180)
  /\ lightAngle (globals (after (increments;; decrements) w))
     = lightAngle (globals w)
  /\ rotated_base_direction
       (lightAngle (globals (after (increments;; decrements) w)))
     = rotated_base_direction (lightAngle (globals w)).
Proof.
  intros Hn Ha Hlen HJ HL.
  destruct (light_angle_scenario w Hlen HJ HL) as [Hup Hback].
  cbv zeta in *. rewrite Ha in Hup, Hback.
  rewrite iter_add_one in Hup, Hback by lia.
  rewrite iter_sub_one in Hback by lia.
  assert (Hsame : lightAngle
                    (globals
                       (after
                          ((keyboardCallback GLFW_KEY_L 0 GLFW_PRESS 0;;
                            frames_run 180);;
                           keyboardCallback GLFW_KEY_L 0 GLFW_RELEASE 0;;
                           keyboardCallback GLFW_KEY_J 0 GLFW_PRESS 0;;
                           frames_run 180) w))
                  = lightAngle (globals w))
    by (rewrite Hback, Ha; f_equal; lia).
  split; [exact Hup |]. split; [exact Hsame | rewrite Hsame; reflexivity].
Qed.

(** ** The light marker *)

(** The rotation by an angle of zero degrees, for a libm exact at zero. *)
Lemma rotate_zero :
  libm_exact_at_zero ->
  rotate identity (radians F32.zero) (Vec3 F32.zero F32.one F32.zero)
  = identity.
Proof.
  intros [Hc Hs].
  change (radians F32.zero) with F32.zero.
  cbv beta zeta delta [rotate]. rewrite Hc, Hs. vm_compute. reflexivity.
Qed.

(** C3, at the angle the program starts with.  With the light angle at
    zero the marker cube is drawn at (0, 10, 10), at distance 10 * sqrt 2
    from the origin, while the light camera of
    [computeLightSpaceTrMatrix] stands at (0, 7.0710678, 7.0710678), at
    distance 10: the marker's translation uses the rotated direction
    without normalizing it. *)
Theorem light_marker_position (w : World) :
  libm_exact_at_zero ->
  lightAngle (globals w) = F32.zero ->
  marker_positions (issued renderScene w)
    = [Some (Vec3 F32.zero (F32.of_Z 10) (F32.of_Z 10))]
  /\ lightPos (globals w)
     = Vec3 F32.zero (S754_finite false 14829104 (-21))
            (S754_finite false 14829104 (-21)).
Proof.
  intros Hz Ha. split.
  - transitivity
      [Some (translation
               (scale
                  (translate
                     (rotate identity (radians (lightAngle (globals w)))
                             (Vec3 F32.zero F32.one F32.zero))
                     (scale3 (Vec3 F32.zero F32.one F32.one) (F32.of_Z 10)))
                  (Vec3 (F32.of_ratio 5 10) (F32.of_ratio 5 10)
                        (F32.of_ratio 5 10))))];
      [reflexivity |].
    rewrite Ha, (rotate_zero Hz). vm_compute. reflexivity.
  - unfold lightPos. rewrite Ha, (rotate_zero Hz). vm_compute. reflexivity.
Qed.

(** ** [processInput] *)

(** X1.  With no key held down [processInput] does nothing: the globals,
    the window and the OpenGL state are as before, and no call is issued;
    in particular the view matrix is not uploaded again. *)
Theorem processInput_no_key (w : World) :
  (forall key, key_down key (globals w) = false) ->
  after processInput w = w /\ issued processInput w = [].
Proof.
  intros Hup.
  change (wp processInput w (fun _ w' l => w' = w /\ l = [])).
  repeat (rewrite ?Hup; wp_step).
  rewrite ?Hup. destruct w; split; reflexivity.
Qed.

(** X2.  Whatever keys are held, [processInput] issues only camera moves
    at [cameraSpeed], activations of the basic shader, uploads of a 4x4
    matrix to the view uniform and polygon-mode changes.  It never draws
    and never uploads the normal matrix it recomputes after a camera or a
    model key. *)
Theorem processInput_calls (w : World) :
  Forall processInput_call (issued processInput w).
Proof.
  assert (H : hoare (fun _ => True) processInput processInput_call).
  { hoare_go. }
  exact (proj2 (H w I)).
Qed.

(** ** The loop after a close request *)

Lemma loop_closed_run (frames : list Frame) (w : World) :
  win_shouldClose (window w) = true ->
  after (loop frames) w = w /\ issued (loop frames) w = [].
Proof.
  intros Hc.
  destruct frames; cbn [loop]; rewrite after_bind, issued_bind;
    change (result (read_window win_shouldClose) w)
      with (win_shouldClose (window w));
    change (after (read_window win_shouldClose) w) with w;
    change (issued (read_window win_shouldClose) w) with (@nil Call);
    rewrite Hc; split; reflexivity.
Qed.

(** X3.  Once a frame has polled an event that asks to close (the close
    button, or Escape pressed), that frame is still completed, the loop
    exits, and the frames that would follow are never run: no input of
    theirs is processed and no call of theirs is issued. *)
Theorem loop_stops_at_close (f : Frame) (rest : list Frame) (w : World) :
  win_shouldClose (window w) = false ->
  Exists (fun e => closes e = true) (polled f) ->
  result (loop (f :: rest)) w = true
  /\ after (loop (f :: rest)) w = after (frame f) w
  /\ issued (loop (f :: rest)) w = issued (frame f) w.
Proof.
  intros Ho Hex.
  pose proof (frame_closes f w Hex) as Hc.
  destruct (loop_closed_run rest _ Hc) as [Ha Hi].
  pose proof (loop_closed rest _ Hc) as Hr.
  cbn [loop]. rewrite result_bind, after_bind, issued_bind.
  change (result (read_window win_shouldClose) w)
    with (win_shouldClose (window w)).
  change (after (read_window win_shouldClose) w) with w.
  change (issued (read_window win_shouldClose) w) with (@nil Call).
  rewrite Ho, result_bind, after_bind, issued_bind. cbv beta.
  rewrite Hr, Ha, Hi, app_nil_r. repeat split; reflexivity.
Qed.


(** ** A frame *)

(** X4.  [renderScene] reads none of the globals [model], [view] and
    [normalMatrix] before it has written them: whatever they hold when the
    frame starts (the matrices a key handler left behind, say), the calls
    of the frame and the state after it are the same. *)
Theorem renderScene_overwrites_matrices (m v : mat4) (n : mat3) (w : World) :
  issued renderScene (with_matrices m v n w) = issued renderScene w
  /\ after renderScene (with_matrices m v n w) = after renderScene w.
Proof.
  change (wp renderScene (with_matrices m v n w)
            (fun _ w1 l1 =>
               wp renderScene w (fun _ w2 l2 => l1 = l2 /\ w1 = w2))).
  destruct w as [g win s]. destruct g. unfold with_matrices.
  wp_go. split; reflexivity.
Qed.

(** X5.  The six draws of a frame, in order and each with its target: the
    nanosuit and the ground go to the shadow map with the depth shader and
    a 2048x2048 viewport, then to the default framebuffer with the basic
    shader and the window's viewport, followed there by the light marker
    with the light shader and the sky box with its own.  Each model draw
    sees its own model matrix in the shader it is drawn with, the depth
    and the colour draws see the same light-space matrix, each colour draw
    sees the normal matrix of the camera's view and its own model matrix,
    and the default framebuffer is bound again when the frame ends. *)
Theorem renderScene_draws (w : World) :
  let g := globals w in
  let vp := (0, 0, win_width (window w), win_height (window w)) in
  let v := Camera_getViewMatrix (myCamera g) in
  let ds := draws (gl w) (issued renderScene w) in
  map draw_target ds
  = [ (DrawnModel nanosuit, depthMapShader, Some depthMapShader,
       shadowMapFBO, (0, 0, SHADOW_WIDTH, SHADOW_HEIGHT));
      (DrawnModel ground, depthMapShader, Some depthMapShader,
       shadowMapFBO, (0, 0, SHADOW_WIDTH, SHADOW_HEIGHT));
      (DrawnModel nanosuit, myBasicShader, Some myBasicShader,
       DefaultFramebuffer, vp);
      (DrawnModel ground, myBasicShader, Some myBasicShader,
       DefaultFramebuffer, vp);
      (DrawnModel lightCube, lightShader, Some lightShader,
       DefaultFramebuffer, vp);
      (DrawnSkyBox, skyboxShader, Some skyboxShader,
       DefaultFramebuffer, vp) ]
  /\ map (seen "model") (take 5 ds)
     = [ Some (UMat4 (nanosuit_model g)); Some (UMat4 ground_model);
         Some (UMat4 (nanosuit_model g)); Some (UMat4 ground_model);
         Some (UMat4 (marker_model g)) ]
  /\ map (seen "lightSpaceTrMatrix") (take 4 ds)
     = replicate 4 (Some (UMat4 (computeLightSpaceTrMatrix g)))
  /\ map (seen "normalMatrix") (take 2 (drop 2 ds))
     = [ Some (UMat3 (normal_matrix_of v (nanosuit_model g)));
         Some (UMat3 (normal_matrix_of v ground_model)) ]
  /\ gl_framebuffer (gl (after renderScene w)) = DefaultFramebuffer.
Proof.
  cbv zeta.
  change (wp renderScene w
            (fun _ w' l =>
               map draw_target (draws (gl w) l)
               = [ (DrawnModel nanosuit, depthMapShader, Some depthMapShader,
                    shadowMapFBO, (0, 0, SHADOW_WIDTH, SHADOW_HEIGHT));
                   (DrawnModel ground, depthMapShader, Some depthMapShader,
                    shadowMapFBO, (0, 0, SHADOW_WIDTH, SHADOW_HEIGHT));
                   (DrawnModel nanosuit, myBasicShader, Some myBasicShader,
                    DefaultFramebuffer,
                    (0, 0, win_width (window w), win_height (window w)));
                   (DrawnModel ground, myBasicShader, Some myBasicShader,
                    DefaultFramebuffer,
                    (0, 0, win_width (window w), win_height (window w)));
                   (DrawnModel lightCube, lightShader, Some lightShader,
                    DefaultFramebuffer,
                    (0, 0, win_width (window w), win_height (window w)));
                   (DrawnSkyBox, skyboxShader, Some skyboxShader,
                    DefaultFramebuffer,
                    (0, 0, win_width (window w), win_height (window w))) ]
               /\ map (seen "model") (take 5 (draws (gl w) l))
                  = [ Some (UMat4 (nanosuit_model (globals w)));
                      Some (UMat4 ground_model);
                      Some (UMat4 (nanosuit_model (globals w)));
                      Some (UMat4 ground_model);
                      Some (UMat4 (marker_model (globals w))) ]
               /\ map (seen "lightSpaceTrMatrix") (take 4 (draws (gl w) l))
                  = replicate 4
                      (Some (UMat4 (computeLightSpaceTrMatrix (globals w))))
               /\ map (seen "normalMatrix")
                      (take 2 (drop 2 (draws (gl w) l)))
                  = [ Some (UMat3 (normal_matrix_of
                                     (Camera_getViewMatrix
                                        (myCamera (globals w)))
                                     (nanosuit_model (globals w))));
                      Some (UMat3 (normal_matrix_of
                                     (Camera_getViewMatrix
                                        (myCamera (globals w)))
                                     ground_model)) ]
               /\ gl_framebuffer (gl w') = DefaultFramebuffer)).
  destruct w as [g win s]. wp_go. repeat split; reflexivity.
Qed.

(** ** Resizing *)

(** X6.  [windowResizeCallback] sets the viewport to the size it is
    given and the projection of the basic shader at once, with a far plane
    of 20 where [initUniforms] uses 50, and changes nothing the window
    reports.  The projection uniform of the light shader keeps its old
    value until the next [renderScene], which uploads the new projection
    to it and draws the sky box with it; the same [renderScene] replaces
    the viewport of the callback by the dimensions the window reports. *)
Theorem resize_reaches_next_frame (width height : Z) (w : World) :
  let P := resized_projection width height in
  let w1 := after (windowResizeCallback width height) w in
  let w2 := after renderScene w1 in
  projection (globals w1) = P
  /\ gl_viewport (gl w1) = (0, 0, width, height)
  /\ window w1 = window w
  /\ gl_uniforms (gl w1) projectionLoc = Some (UMat4 P)
  /\ gl_uniforms (gl w1) (Loc lightShader "projection")
     = gl_uniforms (gl w) (Loc lightShader "projection")
  /\ gl_uniforms (gl w2) (Loc lightShader "projection") = Some (UMat4 P)
  /\ last (issued renderScene w1)
     = Some (SkyBoxDraw skyboxShader
                        (Camera_getViewMatrix (myCamera (globals w))) P)
  /\ gl_viewport (gl w2)
     = (0, 0, win_width (window w), win_height (window w)).
Proof.
  cbv zeta.
  change (wp (windowResizeCallback width height) w
            (fun _ w1 _ =>
               wp renderScene w1
                  (fun _ w2 l =>
                     projection (globals w1)
                     = resized_projection width height
                     /\ gl_viewport (gl w1) = (0, 0, width, height)
                     /\ window w1 = window w
                     /\ gl_uniforms (gl w1) projectionLoc
                        = Some (UMat4 (resized_projection width height))
                     /\ gl_uniforms (gl w1) (Loc lightShader "projection")
                        = gl_uniforms (gl w) (Loc lightShader "projection")
                     /\ gl_uniforms (gl w2) (Loc lightShader "projection")
                        = Some (UMat4 (resized_projection width height))
                     /\ last l
                        = Some (SkyBoxDraw
                                  skyboxShader
                                  (Camera_getViewMatrix
                                     (myCamera (globals w)))
                                  (resized_projection width height))
                     /\ gl_viewport (gl w2)
                        = (0, 0, win_width (window w),
                           win_height (window w))))).
  destruct w as [g win s]. wp_go.
  repeat split; reflexivity.
Qed.

(** X7.  [windowResizeCallback] does not guard against a height of zero
    (a minimised window): the aspect ratio handed to [glm::perspective] is
    then plus infinity, and NaN when the width is zero as well. *)
Theorem resize_zero_height (width : Z) (w : World) :
  0 <= width < 2 ^ 24 ->
  projection (globals (after (windowResizeCallback width 0) w))
  = perspective (radians (F32.of_Z 45))
                (if (width =? 0)%Z then S754_nan else S754_infinity false)
                (F32.of_ratio 1 10) (F32.of_Z 20).
Proof.
  intros Hw.
  assert (Ha : (F32.of_Z width / F32.of_Z 0)%f32
               = if (width =? 0)%Z then S754_nan else S754_infinity false).
  { destruct (Z.eqb_spec width 0) as [-> | Hn]; [reflexivity |].
    rewrite of_Z_int by lia.
    replace (width <? 0)%Z with false by lia. reflexivity. }
  rewrite <- Ha. destruct w as [g win s]. reflexivity.
Qed.

(** ** The cursor *)

Lemma glfwPollEvents_app (a b : list Event) (w : World) :
  after (glfwPollEvents (a ++ b)) w
  = after (glfwPollEvents b) (after (glfwPollEvents a) w)
  /\ issued (glfwPollEvents (a ++ b)) w
     = issued (glfwPollEvents a) w
       ++ issued (glfwPollEvents b) (after (glfwPollEvents a) w).
Proof.
  revert w. induction a as [|e a IH]; intros w; cbn [app glfwPollEvents].
  - split; reflexivity.
  - rewrite !after_bind, !issued_bind. cbv beta.
    destruct (IH (after (dispatch e) w)) as [-> ->].
    split; [reflexivity | apply app_assoc].
Qed.

Lemma moves_ignored (moves : list Event) (w : World) :
  win_cursor (window w) = GLFW_CURSOR_NORMAL ->
  forallb is_cursor_event moves = true ->
  after (glfwPollEvents moves) w = w /\ issued (glfwPollEvents moves) w = [].
Proof.
  intros Hc. induction moves as [|e moves IH]; intros Hm.
  - split; reflexivity.
  - cbn [forallb] in Hm. apply andb_true_iff in Hm. destruct Hm as [He Hm].
    destruct e as [| xpos ypos | |]; try discriminate He.
    assert (Hd : after (dispatch (CursorPosEvent xpos ypos)) w = w
                 /\ issued (dispatch (CursorPosEvent xpos ypos)) w = []).
    { cbn [dispatch]. unfold mouseCallback.
      rewrite after_bind, issued_bind.
      change (result (read_window win_cursor) w)
        with (win_cursor (window w)).
      change (after (read_window win_cursor) w) with w.
      change (issued (read_window win_cursor) w) with (@nil Call).
      cbv beta. rewrite Hc. split; reflexivity. }
    destruct Hd as [Hd1 Hd2].
    cbn [glfwPollEvents]. rewrite after_bind, issued_bind. cbv beta.
    rewrite Hd1, Hd2. exact (IH Hm).
Qed.

(** X8.  After [M] has released the cursor, cursor movements are ignored
    altogether, whatever their number and coordinates: when [M] is pressed
    again the cursor is captured again, exactly two input-mode calls have
    been issued and nothing else, the camera has not been rotated, and yaw,
    pitch, the remembered cursor position and [firstMouse] are as they
    were before the release, so that the next movement is measured from
    the position seen before the release. *)
Theorem cursor_release_ignores_mouse (moves : list Event)
                                     (scancode mode : Z) (w : World) :
  win_cursor (window w) = GLFW_CURSOR_DISABLED ->
  forallb is_cursor_event moves = true ->
  let events :=
    KeyEvent GLFW_KEY_M scancode GLFW_PRESS mode
    :: moves ++ [KeyEvent GLFW_KEY_M scancode GLFW_RELEASE mode;
                 KeyEvent GLFW_KEY_M scancode GLFW_PRESS mode] in
  win_cursor (window (after (glfwPollEvents events) w))
  = GLFW_CURSOR_DISABLED
  /\ mouse_state (globals (after (glfwPollEvents events) w))
     = mouse_state (globals w)
  /\ issued (glfwPollEvents events) w
     = [SetInputMode GLFW_CURSOR_NORMAL; SetInputMode GLFW_CURSOR_DISABLED].
Proof.
  intros Hc Hm. cbv zeta. cbn [glfwPollEvents].
  rewrite after_bind, issued_bind. cbv beta.
  set (w1 := after (dispatch (KeyEvent GLFW_KEY_M scancode GLFW_PRESS mode))
                   w).
  assert (H1 : win_cursor (window w1) = GLFW_CURSOR_NORMAL
               /\ mouse_state (globals w1) = mouse_state (globals w)
               /\ issued (dispatch (KeyEvent GLFW_KEY_M scancode GLFW_PRESS
                                             mode)) w
                  = [SetInputMode GLFW_CURSOR_NORMAL]).
  { subst w1. destruct w as [g [width height cursor close] s].
    cbn in Hc. subst cursor. repeat split; reflexivity. }
  destruct H1 as (Hc1 & Hs1 & ->).
  destruct (glfwPollEvents_app
              moves [KeyEvent GLFW_KEY_M scancode GLFW_RELEASE mode;
                     KeyEvent GLFW_KEY_M scancode GLFW_PRESS mode] w1)
    as [-> ->].
  destruct (moves_ignored moves w1 Hc1 Hm) as [-> ->].
  rewrite <- Hs1. clearbody w1.
  destruct w1 as [g [width height cursor close] s].
  cbn in Hc1. subst cursor. repeat split; reflexivity.
Qed.

(** ** The first movement of the captured cursor *)

Lemma F64_sub_diag (x : F64.t) :
  is_finite x = true -> F64.sub x x = S754_zero false.
Proof.
  destruct x as [s|s| |s m e]; try discriminate; intros _.
  - destruct s; reflexivity.
  - unfold F64.sub. cbn [SFsub]. rewrite Z.sub_diag. reflexivity.
Qed.

Lemma F32_add_zero (x : F32.t) :
  is_neg_zero x = false -> (x + F32.zero)%f32 = x.
Proof. destruct x as [[|]|s| |s m e]; try discriminate; reflexivity. Qed.

Lemma clamp_pitch_id (p : F32.t) :
  pitch_in_range p = true -> clamp_pitch p = p.
Proof.
  unfold pitch_in_range, clamp_pitch, F32.leb, F32.ltb, SFleb, SFltb.
  intros H. apply andb_true_iff in H. destruct H as [H1 H2].
  rewrite (SFcompare_antisym p (F32.of_Z 89)).
  destruct (SFcompare p (F32.of_Z 89)) as [[| |]|]; try discriminate H2;
    cbn [option_map CompOpp];
    rewrite (SFcompare_antisym (- F32.of_Z 89)%f32 p);
    destruct (SFcompare (- F32.of_Z 89)%f32 p) as [[| |]|];
    try discriminate H1; reflexivity.
Qed.

(** [mouseCallback] with the cursor captured, in closed form. *)
Lemma mouseCallback_captured (xpos ypos : F64.t) (w : World) :
  win_cursor (window w) <> GLFW_CURSOR_NORMAL ->
  let g := globals w in
  let lx := if firstMouse g then double_to_float xpos else lastX g in
  let ly := if firstMouse g then double_to_float ypos else lastY g in
  let yaw' :=
    (yaw g + double_to_float (F64.sub xpos (float_to_double lx))
             * F32.of_ratio 1 10)%f32 in
  let pitch' :=
    clamp_pitch
      (pitch g + double_to_float (F64.sub (float_to_double ly) ypos)
                 * F32.of_ratio 1 10)%f32 in
  let cam := Camera_rotate (myCamera g) pitch' yaw' in
  let g' := globals (after (mouseCallback xpos ypos) w) in
  mouse_state g'
  = (false, double_to_float xpos, double_to_float ypos, yaw', pitch', cam)
  /\ issued (mouseCallback xpos ypos) w
     = [ CameraRotate pitch' yaw'; UseProgram myBasicShader;
         Uniform viewLoc (UMat4 (Camera_getViewMatrix cam));
         Uniform normalMatrixLoc
                 (UMat3 (normal_matrix_of (Camera_getViewMatrix cam)
                                          (model g))) ].
Proof.
  intros Hc. cbv zeta.
  change (wp (mouseCallback xpos ypos) w
            (fun _ w' l =>
               mouse_state (globals w')
               = (false, double_to_float xpos, double_to_float ypos,
                  (yaw (globals w)
                   + double_to_float
                       (F64.sub xpos
                          (float_to_double
                             (if firstMouse (globals w)
                              then double_to_float xpos
                              else lastX (globals w))))
                     * F32.of_ratio 1 10)%f32,
                  clamp_pitch
                    (pitch (globals w)
                     + double_to_float
                         (F64.sub
                            (float_to_double
                               (if firstMouse (globals w)
                                then double_to_float ypos
                                else lastY (globals w))) ypos)
                       * F32.of_ratio 1 10)%f32,
                  Camera_rotate
                    (myCamera (globals w))
                    (clamp_pitch
                       (pitch (globals w)
                        + double_to_float
                            (F64.sub
                               (float_to_double
                                  (if firstMouse (globals w)
                                   then double_to_float ypos
                                   else lastY (globals w))) ypos)
                          * F32.of_ratio 1 10)%f32)
                    (yaw (globals w)
                     + double_to_float
                         (F64.sub xpos
                            (float_to_double
                               (if firstMouse (globals w)
                                then double_to_float xpos
                                else lastX (globals w))))
                       * F32.of_ratio 1 10)%f32)
               /\ l = [ CameraRotate
                          (clamp_pitch
                             (pitch (globals w)
                              + double_to_float
                                  (F64.sub
                                     (float_to_double
                                        (if firstMouse (globals w)
                                         then double_to_float ypos
                                         else lastY (globals w))) ypos)
                                * F32.of_ratio 1 10)%f32)
                          (yaw (globals w)
                           + double_to_float
                               (F64.sub xpos
                                  (float_to_double
                                     (if firstMouse (globals w)
                                      then double_to_float xpos
                                      else lastX (globals w))))
                             * F32.of_ratio 1 10)%f32;
                        UseProgram myBasicShader;
                        Uniform viewLoc
                          (UMat4 (Camera_getViewMatrix
                                    (Camera_rotate
                                       (myCamera (globals w))
                                       (clamp_pitch
                                          (pitch (globals w)
                                           + double_to_float
                                               (F64.sub
                                                  (float_to_double
                                                     (if firstMouse
                                                           (globals w)
                                                      then double_to_float
                                                             ypos
                                                      else lastY (globals w)))
                                                  ypos)
                                             * F32.of_ratio 1 10)%f32)
                                       (yaw (globals w)
                                        + double_to_float
                                            (F64.sub xpos
                                               (float_to_double
                                                  (if firstMouse (globals w)
                                                   then double_to_float xpos
                                                   else lastX (globals w))))
                                          * F32.of_ratio 1 10)%f32)));
                        Uniform normalMatrixLoc
                          (UMat3 (normal_matrix_of
                                    (Camera_getViewMatrix
                                       (Camera_rotate
                                          (myCamera (globals w))
                                          (clamp_pitch
                                             (pitch (globals w)
                                              + double_to_float
                                                  (F64.sub
                                                     (float_to_double
                                                        (if firstMouse
                                                              (globals w)
                                                         then double_to_float
                                                                ypos
                                                         else lastY
                                                                (globals w)))
                                                     ypos)
                                                * F32.of_ratio 1 10)%f32)
                                          (yaw (globals w)
                                           + double_to_float
                                               (F64.sub xpos
                                                  (float_to_double
                                                     (if firstMouse
                                                           (globals w)
                                                      then double_to_float
                                                             xpos
                                                      else lastX (globals w))))
                                             * F32.of_ratio 1 10)%f32))
                                    (model (globals w)))) ])).
  destruct w as [g [width height cursor close] s]. cbn in Hc.
  destruct cursor; [contradiction | | ];
    unfold mouseCallback; wp_go;
    unfold clamp_pitch, normal_matrix_of, mouse_state; cbn;
    repeat match goal with
           | E : F32.ltb _ _ = _ |- _ => rewrite E; cbn
           | E : firstMouse _ = _ |- _ => rewrite E; cbn
           end;
    split; reflexivity.
Qed.

(** X9.  The first movement of the captured cursor does not turn the
    camera: when the coordinates are finite and exactly representable as
    [float] (whole pixels are), the offsets are zero, so yaw and pitch
    keep their values, the camera is rotated to that same pitch and yaw,
    the position is remembered and [firstMouse] is cleared. *)
Theorem first_movement_no_jump (xpos ypos : F64.t) (w : World) :
  win_cursor (window w) <> GLFW_CURSOR_NORMAL ->
  firstMouse (globals w) = true ->
  is_finite xpos = true -> is_finite ypos = true ->
  float_to_double (double_to_float xpos) = xpos ->
  float_to_double (double_to_float ypos) = ypos ->
  pitch_in_range (pitch (globals w)) = true ->
  is_neg_zero (pitch (globals w)) = false ->
  is_neg_zero (yaw (globals w)) = false ->
  mouse_state (globals (after (mouseCallback xpos ypos) w))
  = (false, double_to_float xpos, double_to_float ypos,
     yaw (globals w), pitch (globals w),
     Camera_rotate (myCamera (globals w)) (pitch (globals w))
                   (yaw (globals w)))
  /\ head (issued (mouseCallback xpos ypos) w)
     = Some (CameraRotate (pitch (globals w)) (yaw (globals w))).
Proof.
  intros Hc Hfm Hfx Hfy Hx Hy Hp Hzp Hzy.
  destruct (mouseCallback_captured xpos ypos w Hc) as [Hs Hi].
  cbv zeta in Hs, Hi. rewrite Hfm in Hs, Hi. rewrite Hs, Hi. clear Hs Hi.
  rewrite Hx, Hy, !F64_sub_diag by assumption.
  change (double_to_float (S754_zero false)) with F32.zero.
  assert (Hm : (F32.zero * F32.of_ratio 1 10)%f32 = F32.zero)
    by reflexivity.
  rewrite Hm, !F32_add_zero, clamp_pitch_id by assumption.
  split; reflexivity.
Qed.

(** ** Opposite keys *)

Lemma processInput_model_spec (w : World) :
  angle (globals (after processInput_model w))
  = let a := angle (globals w) in
    let a := if key_down GLFW_KEY_Q (globals w) then (a - F32.one)%f32
             else a in
    if key_down GLFW_KEY_E (globals w) then (a + F32.one)%f32 else a.
Proof.
  change (wp processInput_model w
            (fun _ w' _ =>
               angle (globals w')
               = let a := angle (globals w) in
                 let a := if key_down GLFW_KEY_Q (globals w)
                          then (a - F32.one)%f32 else a in
                 if key_down GLFW_KEY_E (globals w)
                 then (a + F32.one)%f32 else a)).
  wp_go; unfold key_down in *; cbn in *;
    repeat match goal with
           | E : default false _ = _ |- _ => rewrite E; clear E
           end;
    reflexivity.
Qed.

Lemma processInput_angle (w : World) :
  angle (globals (after processInput w))
  = let a := angle (globals w) in
    let a := if key_down GLFW_KEY_Q (globals w) then (a - F32.one)%f32
             else a in
    if key_down GLFW_KEY_E (globals w) then (a + F32.one)%f32 else a.
Proof.
  unfold processInput. rewrite !after_bind.
  set (w1 := after processInput_camera w).
  set (w2 := after processInput_model w1).
  assert (H1 : pressedKeys (globals w1) = pressedKeys (globals w)
               /\ angle (globals w1) = angle (globals w)).
  { assert (Hh : hoare (fun w' => pressedKeys (globals w')
                                  = pressedKeys (globals w)
                                  /\ angle (globals w') = angle (globals w))
                       processInput_camera (fun _ => True)) by hoare_go.
    apply (Hh w (conj eq_refl eq_refl)). }
  assert (H2 : angle (globals (after processInput_light
                                     (after processInput_modes w2)))
               = angle (globals w2)).
  { assert (Hh : hoare (fun w' => angle (globals w') = angle (globals w2))
                       (processInput_modes;; processInput_light)
                       (fun _ => True)) by hoare_go.
    pose proof (Hh w2 eq_refl) as [Hi _].
    rewrite !after_bind in Hi. exact Hi. }
  rewrite H2. subst w2. rewrite processInput_model_spec.
  unfold key_down. destruct H1 as [-> ->]. reflexivity.
Qed.

(** X10.  Opposite keys held together cancel within one [processInput],
    as long as the angle is a whole number of degrees [n] with
    [-2^24 < n <= 2^24]: with [J] and [L] down the light angle is
    unchanged, with [Q] and [E] down the model angle is unchanged (the
    decrement comes first in both, and both steps are exact in that
    range). *)
Theorem opposite_keys_cancel (n : Z) (w : World) :
  - 2 ^ 24 < n <= 2 ^ 24 ->
  (lightAngle (globals w) = F32.of_Z n ->
   down GLFW_KEY_J w -> down GLFW_KEY_L w ->
   lightAngle (globals (after processInput w)) = F32.of_Z n)
  /\ (angle (globals w) = F32.of_Z n ->
      down GLFW_KEY_Q w -> down GLFW_KEY_E w ->
      angle (globals (after processInput w)) = F32.of_Z n).
Proof.
  intros Hn.
  assert (Hr : ((F32.of_Z n - F32.one) + F32.one)%f32 = F32.of_Z n).
  { rewrite F32_sub_one, F32_add_one by lia. f_equal. lia. }
  unfold down. split; intros Ha H1 H2.
  - rewrite processInput_lightAngle. unfold turned_light.
    rewrite H1, H2, Ha. exact Hr.
  - rewrite processInput_angle. cbv zeta.
    rewrite H1, H2, Ha. exact Hr.
Qed.

(** ** The framebuffer *)

Lemma gl_set_uniform_framebuffer (l : Location) (v : UniformValue)
                                 (s : GLState) :
  gl_framebuffer (gl_set_uniform l v s) = gl_framebuffer s.
Proof.
  unfold gl_set_uniform. destruct (gl_program s) as [p|]; [ | reflexivity].
  destruct (Shader_eqb p (loc_program l)); reflexivity.
Qed.

Ltac hoare_side ::=
  let w := fresh "w" in
  let Hw := fresh "Hw" in
  intros w Hw;
  unfold mouse_inv, display_mode_ok, display_mode, up, down, key_down in *;
  cbn in *;
  rewrite ?gl_set_uniform_polygonMode, ?gl_set_uniform_framebuffer in *;
  (exact Hw || (intuition congruence)).






(** ** Uniform uploads and the program in use *)

Lemma uploads_accepted_app (l1 l2 : list Call) :
  forall s, uploads_accepted s (l1 ++ l2)
            = uploads_accepted s l1 && uploads_accepted (gl_run l1 s) l2.
Proof.
  induction l1 as [|c l1 IH]; intros s; cbn [app uploads_accepted].
  - reflexivity.
  - rewrite IH, andb_assoc. reflexivity.
Qed.

Lemma gl_run_app (l1 l2 : list Call) (s : GLState) :
  gl_run (l1 ++ l2) s = gl_run l2 (gl_run l1 s).
Proof. apply fold_left_app. Qed.

Lemma wt_ret {A} (a : A) : well_targeted (mret a).
Proof. intros w. split; reflexivity. Qed.

Lemma wt_bind {A B} (m : M A) (k : A -> M B) :
  well_targeted m -> (forall a, well_targeted (k a)) ->
  well_targeted (m ≫= k).
Proof.
  intros Hm Hk w.
  destruct (Hm w) as [H1 H2].
  destruct (Hk (result m w) (after m w)) as [H3 H4].
  rewrite issued_bind, after_bind, uploads_accepted_app, gl_run_app.
  rewrite <- H2, H1, H3, H4. split; reflexivity.
Qed.

Lemma wt_read {A} (f : Globals -> A) : well_targeted (read f).
Proof. intros w. split; reflexivity. Qed.

Lemma wt_read_window {A} (f : Window -> A) : well_targeted (read_window f).
Proof. intros w. split; reflexivity. Qed.

Lemma wt_assign (f : Globals -> Globals) : well_targeted (assign f).
Proof. intros w. split; reflexivity. Qed.

Lemma wt_update_window (f : Window -> Window) :
  well_targeted (update_window f).
Proof. intros w. split; reflexivity. Qed.

Lemma wt_call (c : Call) :
  (forall s, uploads_accepted s [c] = true) -> well_targeted (call c).
Proof. intros Hc w. split; [apply Hc | reflexivity]. Qed.

Lemma wt_glCheckError (line : Z) (pending : list Z) :
  well_targeted (glCheckError line pending).
Proof.
  intros w. unfold issued, after, glCheckError. cbn [fst snd].
  generalize (gl w). induction pending as [|code rest IH]; intros s.
  - split; reflexivity.
  - exact (IH s).
Qed.

Lemma wt_when (b : bool) (m : M unit) :
  well_targeted m -> well_targeted (when b m).
Proof. intros Hm. destruct b; [exact Hm | apply wt_ret]. Qed.

(** A stretch of code that begins by activating a program is checked by
    running it. *)
Ltac wt_block :=
  lazymatch goal with
  | |- well_targeted ?m =>
      let w := fresh "w" in
      intros w;
      change (wp m w (fun _ w' l =>
                        uploads_accepted (gl w) l = true
                        /\ gl w' = gl_run l (gl w)));
      destruct w as [? ? ?]; wp_go; split; reflexivity
  end.

Ltac wt_step :=
  lazymatch goal with
  | |- well_targeted (mret _) => apply wt_ret
  | |- well_targeted (read _) => apply wt_read
  | |- well_targeted (read_window _) => apply wt_read_window
  | |- well_targeted (assign _) => apply wt_assign
  | |- well_targeted (update_window _) => apply wt_update_window
  | |- well_targeted (glCheckError _ _) => apply wt_glCheckError
  | |- well_targeted (call (Uniform _ _)) => fail "upload outside a block"
  | |- well_targeted (call _) => apply wt_call; intros ?; reflexivity
  | |- well_targeted (mbind _ (call (UseProgram _))) => wt_block
  | |- well_targeted (mbind _ (useShaderProgram _)) => wt_block
  | |- well_targeted (mbind _ _) => apply wt_bind; [| intros ?]
  | |- well_targeted (when _ _) => apply wt_when
  | |- well_targeted (if ?b then _ else _) => destruct b
  | |- well_targeted (set_display_mode _ _) => unfold set_display_mode
  | |- well_targeted _ => progress autounfold with program
  end.

Ltac wt_go := repeat wt_step.

Lemma wt_dispatch (e : Event) : well_targeted (dispatch e).
Proof.
  destruct e; cbn [dispatch];
    [wt_go | unfold mouseCallback; wt_go | wt_go | wt_go].
Qed.

Lemma wt_glfwPollEvents (events : list Event) :
  well_targeted (glfwPollEvents events).
Proof.
  induction events as [|e rest IH]; cbn [glfwPollEvents].
  - apply wt_ret.
  - apply wt_bind; [apply wt_dispatch | intros _; exact IH].
Qed.

Lemma wt_frame (f : Frame) : well_targeted (frame f).
Proof.
  unfold frame.
  apply wt_bind; [wt_go | intros _].
  apply wt_bind; [wt_go | intros _].
  apply wt_bind; [apply wt_glfwPollEvents | intros _].
  wt_go.
Qed.

Lemma wt_loop (frames : list Frame) : well_targeted (loop frames).
Proof.
  induction frames as [|f rest IH]; cbn [loop];
    (apply wt_bind; [apply wt_read_window | intros close]);
    destruct close; try apply wt_ret.
  apply wt_bind; [apply wt_frame | intros _; exact IH].
Qed.

(** X12.  Every [glUniform...] call of the program, from start-up to the
    last frame and in every callback, is issued while the shader program
    that owns the location is the one in use, whatever program was in use
    before: no upload is ever rejected or lost, and the OpenGL state at
    the end is the one the issued calls produce. *)
Theorem main_uploads_accepted (created : option string)
                              (startup_errors : list Z)
                              (frames : list Frame) :
  well_targeted (main created startup_errors frames).
Proof.
  unfold main. destruct created as [what|]; [wt_go |].
  repeat (apply wt_bind; [solve [wt_go] | intros ?]).
  apply wt_bind; [apply wt_loop | intros ?; wt_go].
Qed.

(** ** The camera keys *)

Lemma processInput_camera_spec (w : World) :
  camera_moves (issued processInput_camera w) = requested_moves (globals w)
  /\ myCamera (globals (after processInput_camera w))
     = fold_left (fun c d => Camera_move c d cameraSpeed)
                 (requested_moves (globals w)) (myCamera (globals w)).
Proof.
  change (wp processInput_camera w
            (fun _ w' l =>
               camera_moves l = requested_moves (globals w)
               /\ myCamera (globals w')
                  = fold_left (fun c d => Camera_move c d cameraSpeed)
                              (requested_moves (globals w))
                              (myCamera (globals w)))).
  destruct w as [g win s]. unfold requested_moves.
  wp_go; unfold key_down in *; cbn in *;
    repeat match goal with
           | E : default false _ = _ |- _ => rewrite E; clear E
           end;
    split; reflexivity.
Qed.

Lemma camera_moves_none (l : list Call) :
  Forall (fun c => camera_moves [c] = []) l -> camera_moves l = [].
Proof.
  induction 1 as [|c l Hc _ IH]; [reflexivity |].
  destruct c; try discriminate Hc; exact IH.
Qed.

(** X13.  The camera keys are bound as W forward, S backward, A left,
    D right, Space up and Left Shift down.  One [processInput] issues one
    [Camera::move] for each of them that is down, in that order and at
    [cameraSpeed], and no other: opposite keys held together both move the
    camera, one after the other, and the camera ends where these moves
    take it. *)
Theorem processInput_camera_moves (w : World) :
  camera_moves (issued processInput w) = requested_moves (globals w)
  /\ myCamera (globals (after processInput w))
     = fold_left (fun c d => Camera_move c d cameraSpeed)
                 (requested_moves (globals w)) (myCamera (globals w)).
Proof.
  destruct (processInput_camera_spec w) as [Hm Hc].
  assert (Hh : hoare (fun w' => myCamera (globals w')
                                = myCamera (globals
                                              (after processInput_camera w)))
                     (processInput_model;; processInput_modes;;
                      processInput_light)
                     (fun c => camera_moves [c] = [])) by hoare_go.
  destruct (Hh _ eq_refl) as [Ha Hi].
  unfold processInput. rewrite issued_bind, after_bind. cbv beta.
  unfold camera_moves at 1. rewrite flat_map_app.
  fold (camera_moves (issued processInput_camera w)).
  match goal with
  | |- context [flat_map ?f ?l] => fold (camera_moves l)
  end.
  rewrite (camera_moves_none _ Hi), app_nil_r, Ha.
  split; assumption.
Qed.

(** ** A frame after the keys *)

Lemma draws_app (l1 l2 : list Call) :
  forall s, draws s (l1 ++ l2) = draws s l1 ++ draws (gl_run l1 s) l2.
Proof.
  induction l1 as [|c l1 IH]; intros s; cbn [app draws].
  - reflexivity.
  - rewrite IH, <- app_assoc. reflexivity.
Qed.

Lemma draws_none (l : list Call) :
  Forall (fun c => is_draw c = false) l -> forall s, draws s l = [].
Proof.
  induction 1 as [|c l Hc _ IH]; intros s; [reflexivity |].
  cbn [draws]. rewrite IH. destruct c; try discriminate Hc; reflexivity.
Qed.

Lemma dispatch_no_draw (e : Event) :
  hoare (fun _ => True) (dispatch e) (fun c => is_draw c = false).
Proof.
  destruct e; cbn [dispatch];
    [hoare_go | unfold mouseCallback; hoare_go | hoare_go | hoare_go].
Qed.

Lemma renderScene_draw_modes (w : World) :
  let ds := draws (gl w) (issued renderScene w) in
  map (fun d => gl_polygonMode d.2) ds = replicate 6 (gl_polygonMode (gl w))
  /\ map (seen "isFlat") (take 2 (drop 2 ds))
     = replicate 2 (Some (UInt (isFlat (globals w))))
  /\ map (seen "lightDir") (take 2 (drop 2 ds))
     = replicate 2
         (Some (UVec3 (rotated_base_direction (lightAngle (globals w))))).
Proof.
  cbv zeta.
  change (wp renderScene w
            (fun _ _ l =>
               map (fun d => gl_polygonMode d.2) (draws (gl w) l)
               = replicate 6 (gl_polygonMode (gl w))
               /\ map (seen "isFlat") (take 2 (drop 2 (draws (gl w) l)))
                  = replicate 2 (Some (UInt (isFlat (globals w))))
               /\ map (seen "lightDir") (take 2 (drop 2 (draws (gl w) l)))
                  = replicate 2
                      (Some (UVec3 (rotated_base_direction
                                      (lightAngle (globals w))))))).
  destruct w as [g win s]. wp_go. repeat split; reflexivity.
Qed.

Lemma frame_draws (f : Frame) (w : World) :
  draws (gl w) (issued (frame f) w)
  = draws (gl (after processInput w))
          (issued renderScene (after processInput w)).
Proof.
  unfold frame.
  rewrite (issued_bind processInput). cbv beta.
  rewrite (issued_bind renderScene). cbv beta.
  assert (Hp : hoare (fun _ => True) processInput
                     (fun c => is_draw c = false)) by hoare_go.
  assert (Ht : hoare (fun _ => True)
                     (glfwPollEvents (polled f);; call SwapBuffers;;
                      glCheckError 650 (gl_errors f))
                     (fun c => is_draw c = false)).
  { apply hoare_bind;
      [apply (glfwPollEvents_hoare _ _ (fun _ => True));
         [intros e _; apply dispatch_no_draw | apply Forall_forall; trivial]
      | intros _; hoare_go]. }
  assert (Hg : well_targeted processInput) by wt_go.
  rewrite (draws_app (issued processInput w)).
  rewrite (draws_app (issued renderScene (after processInput w))).
  rewrite (draws_none _ (proj2 (Hp w I))).
  rewrite (draws_none _ (proj2 (Ht _ I))).
  rewrite <- (proj2 (Hg w)), app_nil_r. apply app_nil_l.
Qed.

(** X14.  The keys take effect in the frame in which [processInput] sees
    them.  All the draws of a frame are those of [renderScene], run on the
    state [processInput] leaves and before the events of the frame are
    polled; every one of the six, the shadow pass and the sky box
    included, is drawn in the polygon mode the mode keys select; the
    colour draws see the shading flag the mode keys select and the base
    direction (0, 1, 1) turned by the light angle after the light keys. *)
Theorem frame_draws_after_keys (f : Frame) (w : World) :
  let w1 := after processInput w in
  let ds := draws (gl w) (issued (frame f) w) in
  ds = draws (gl w1) (issued renderScene w1)
  /\ map (fun d => gl_polygonMode d.2) ds = replicate 6 (selected_mode w).1
  /\ map (seen "isFlat") (take 2 (drop 2 ds))
     = replicate 2 (Some (UInt (selected_mode w).2))
  /\ map (seen "lightDir") (take 2 (drop 2 ds))
     = replicate 2 (Some (UVec3 (rotated_base_direction (turned_light w)))).
Proof.
  cbv zeta.
  pose proof (frame_draws f w) as Hd.
  pose proof (processInput_display_mode w) as Hm.
  pose proof (processInput_lightAngle w) as Hl.
  unfold display_mode in Hm.
  set (w1 := after processInput w) in *. clearbody w1.
  rewrite Hd. clear Hd.
  destruct (renderScene_draw_modes w1) as (H1 & H2 & H3).
  cbv zeta in H1, H2, H3.
  destruct (selected_mode w) as [mode flat].
  injection Hm as Hm1 Hm2. cbn [fst snd].
  rewrite <- Hm1, <- Hm2, <- Hl.
  exact (conj eq_refl (conj H1 (conj H2 H3))).
Qed.


(** ** Loading before use *)

Lemma all_loaded_load (c : Call) (st : Loaded) :
  all_loaded st -> all_loaded (load c st).
Proof.
  intros (Hs & Hm & Hb).
  destruct c; try (repeat split; assumption); repeat split; cbn;
    intros; rewrite ?Hs, ?Hm, ?orb_true_r; (reflexivity || assumption).
Qed.

Lemma all_loaded_before_use (l : list Call) :
  forall st, all_loaded st -> loaded_before_use st l = true.
Proof.
  induction l as [|c l IH]; intros st Hst; [reflexivity |].
  cbn [loaded_before_use]. rewrite (IH _ (all_loaded_load c st Hst)).
  destruct Hst as (Hs & Hm & Hb).
  destruct c; cbn; rewrite ?Hs, ?Hm, ?Hb; reflexivity.
Qed.

(** X15.  Nothing is used before it is loaded: in any run of [main],
    every activation of a shader, every upload to one of its uniforms and
    every draw comes after the load of the shader, the model or the sky
    box it names. *)
Theorem main_loaded_before_use (created : option string)
                               (startup_errors : list Z)
                               (frames : list Frame) (w : World) :
  loaded_before_use nothing_loaded
                    (issued (main created startup_errors frames) w) = true.
Proof.
  destruct created as [what|]; [reflexivity |].
  change (wp (main None startup_errors frames) w
            (fun _ _ l => loaded_before_use nothing_loaded l = true)).
  unfold main. wp_go.
  match goal with
  | |- wp (glCheckError _ _) _ _ => unfold wp at 1
  end.
  cbn. apply all_loaded_before_use.
  repeat split; intros []; reflexivity.
Qed.

End Properties.

(** * Closed examples

    The program run on concrete numbers, with the instances of [Sample]. *)

Section Examples.
#[local] Existing Instance Sample.libm.
#[local] Existing Instance Sample.glmext.
#[local] Existing Instance Sample.camera.

(** The constants of the program are the binary32 numbers a compiler
    produces for them. *)
Example constants_bits :
  F32.of_ratio 1 10 = S754_finite false 13421773 (-27)       (* 0.1f *)
  /\ F32.of_ratio 5 100 = S754_finite false 13421773 (-28)   (* 0.05f *)
  /\ deg2rad = S754_finite false 9370165 (-29)               (* 0x3C8EFA35 *)
  /\ F32.of_Z 89 = S754_finite false 11665408 (-17)
  /\ F32.add (F32.of_Z 16777216) F32.one = F32.of_Z 16777216.
Proof. repeat split; reflexivity. Qed.

Lemma example_libm_exact_at_zero : libm_exact_at_zero.
Proof. split; reflexivity. Qed.

(** C2 refuted as stated: at the initial angle the vector uploaded as
    [lightDir] is (0, 1, 1), which is not the normalized direction
    (0, 0.70710677, 0.70710677) the light-space matrix is built from. *)
Lemma lightDir_upload_not_normalized :
  uploads "lightDir" (issued renderScene world_initial)
  <> [(myBasicShader,
       UVec3 (normalize
                (rotated_base_direction
                   (lightAngle (globals world_initial)))))].
Proof. vm_compute. intros E. discriminate E. Qed.

(** C3 at the initial state of the program. *)
Lemma light_marker_position_initial :
  libm_exact_at_zero
  /\ lightAngle (globals world_initial) = F32.zero
  /\ marker_positions (issued renderScene world_initial)
     = [Some (Vec3 F32.zero (F32.of_Z 10) (F32.of_Z 10))]
  /\ lightPos (globals world_initial)
     = Vec3 F32.zero (S754_finite false 14829104 (-21))
            (S754_finite false 14829104 (-21)).
Proof.
  split; [exact example_libm_exact_at_zero |].
  split; [reflexivity |].
  apply (light_marker_position world_initial example_libm_exact_at_zero).
  reflexivity.
Defined.

(** C4 at a jump of 10^30 pixels. *)
Lemma pitch_within_limits_far_jump :
  Forall finite_frame far_jump
  /\ Forall rotate_pitch_ok (issued (main None [] far_jump) world_initial)
  /\ pitch_in_range
       (pitch (globals (after (main None [] far_jump) world_initial)))
     = true.
Proof.
  assert (Hfin : Forall finite_frame far_jump).
  { repeat constructor. }
  split; [exact Hfin |].
  apply (pitch_within_limits None [] far_jump Hfin).
Defined.

(** The jump is clamped: the pitch ends at 89 degrees. *)
Example far_jump_clamped :
  pitch (globals (after (main None [] far_jump) world_initial))
  = F32.of_Z 89.
Proof. vm_compute. reflexivity. Qed.

(** C6 refuted as stated: from 2^24 degrees the 180 increments are all
    absorbed by rounding and the 180 decrements are exact, so the round
    trip ends 180 degrees below its start. *)
Lemma light_angle_round_trip_fails :
  let increments :=
    keyboardCallback GLFW_KEY_L 0 GLFW_PRESS 0;; frames_run 180 in
  let decrements :=
    keyboardCallback GLFW_KEY_L 0 GLFW_RELEASE 0;;
    keyboardCallback GLFW_KEY_J 0 GLFW_PRESS 0;; frames_run 180 in
  lightAngle (globals (after (increments;; decrements) world_at_2p24))
  <> lightAngle (globals world_at_2p24).
Proof.
  cbv zeta.
  destruct (light_angle_scenario world_at_2p24) as [_ Hback];
    [reflexivity | reflexivity | reflexivity |].
  cbv zeta in Hback. rewrite Hback. vm_compute. intros E. discriminate E.
Qed.

(** C6 from the initial angle. *)
Lemma light_angle_round_trip_initial :
  (- 2 ^ 24 <= 0 <= 2 ^ 24 - 180)
  /\ lightAngle (globals world_initial) = F32.of_Z 0
  /\ let increments :=
       keyboardCallback GLFW_KEY_L 0 GLFW_PRESS 0;; frames_run 180 in
     let decrements :=
       keyboardCallback GLFW_KEY_L 0 GLFW_RELEASE 0;;
       keyboardCallback GLFW_KEY_J 0 GLFW_PRESS 0;; frames_run 180 in
     lightAngle (globals (after increments world_initial)) = F32.of_Z (0 + 180)
     /\ lightAngle (globals (after (increments;; decrements) world_initial))
        = lightAngle (globals world_initial)
     /\ rotated_base_direction
          (lightAngle (globals (after (increments;; decrements)
                                      world_initial)))
        = rotated_base_direction (lightAngle (globals world_initial)).
Proof.
  split; [lia |]. split; [reflexivity |].
  apply (light_angle_round_trip 0 world_initial);
    [lia | reflexivity | reflexivity | reflexivity | reflexivity].
Defined.

(** C7 from the initial state: key 2, then key 1, with key 2 released,
    still held, and with key 1 tapped. *)
Lemma display_mode_key2_key1 :
  let key2 := keyboardCallback GLFW_KEY_2 0 GLFW_PRESS 0;;
              processInput in
  let key1 := keyboardCallback GLFW_KEY_2 0 GLFW_RELEASE 0;;
              keyboardCallback GLFW_KEY_1 0 GLFW_PRESS 0;;
              processInput in
  let key1_held := keyboardCallback GLFW_KEY_1 0 GLFW_PRESS 0;;
                   processInput in
  let key1_tapped := keyboardCallback GLFW_KEY_2 0 GLFW_RELEASE 0;;
                     keyboardCallback GLFW_KEY_1 0 GLFW_PRESS 0;;
                     keyboardCallback GLFW_KEY_1 0 GLFW_RELEASE 0;;
                     processInput in
  display_mode (after key2 world_initial) = (GL_LINE, 0)
  /\ display_mode (after (key2;; key1) world_initial) = (GL_FILL, 0)
  /\ display_mode (after (key2;; key1_held) world_initial) = (GL_LINE, 0)
  /\ display_mode (after (key2;; key1_tapped) world_initial) = (GL_LINE, 0).
Proof.
  apply (proj2 (proj2 (proj2 (proj2 display_mode_machine))) world_initial);
    reflexivity.
Defined.

(** C7 refuted as stated: key 2 is pressed and processed, then key 1 is
    pressed while key 2 is still held; the next [processInput] tests key 1
    first and key 2 after it, and the mode stays (line, smooth). *)
Lemma display_mode_key1_while_key2_held :
  let key2 := keyboardCallback GLFW_KEY_2 0 GLFW_PRESS 0;;
              processInput in
  let key1 := keyboardCallback GLFW_KEY_1 0 GLFW_PRESS 0;;
              processInput in
  display_mode (after (key2;; key1) world_initial) <> (GL_FILL, 0).
Proof. vm_compute. intros E. discriminate E. Qed.


(** C10 for a press of [W] at the start. *)
Lemma keyboardCallback_press_W :
  pressedKeys
    (globals (after (keyboardCallback GLFW_KEY_W 0 GLFW_PRESS 0)
                    world_initial))
    !! Z.to_nat GLFW_KEY_W = Some true.
Proof.
  destruct (keyboardCallback_pressedKeys GLFW_KEY_W 0 GLFW_PRESS 0
                                         world_initial)
    as (_ & _ & _ & Hkey & _).
  apply Hkey;
    [unfold GLFW_KEY_W; lia | apply Nat.ltb_lt; reflexivity | reflexivity].
Defined.

(** X1 at the start of the program: no key has been pressed yet. *)
Lemma processInput_no_key_initial :
  after processInput world_initial = world_initial
  /\ issued processInput world_initial = [].
Proof.
  apply (processInput_no_key world_initial).
  intros key. unfold key_down.
  change (pressedKeys (globals world_initial)) with (replicate 1024 false).
  destruct (replicate 1024 false !! Z.to_nat key) as [b|] eqn:E;
    [ | reflexivity].
  apply lookup_replicate in E. destruct E as [-> _]. reflexivity.
Defined.

(** X3 when Escape is pressed in the first frame and a second frame with
    cursor events is waiting. *)
Lemma loop_stops_after_escape :
  let f := {| polled := [KeyEvent GLFW_KEY_ESCAPE 0 GLFW_PRESS 0];
              gl_errors := [] |} in
  result (loop (f :: far_jump)) world_initial = true
  /\ after (loop (f :: far_jump)) world_initial
     = after (frame f) world_initial
  /\ issued (loop (f :: far_jump)) world_initial
     = issued (frame f) world_initial.
Proof.
  apply (loop_stops_at_close
           {| polled := [KeyEvent GLFW_KEY_ESCAPE 0 GLFW_PRESS 0];
              gl_errors := [] |} far_jump world_initial);
    [reflexivity | repeat constructor].
Defined.

(** X7 for a window of width 1024 and height 0. *)
Lemma resize_zero_height_1024 :
  projection (globals (after (windowResizeCallback 1024 0) world_initial))
  = perspective (radians (F32.of_Z 45)) (S754_infinity false)
                (F32.of_ratio 1 10) (F32.of_Z 20).
Proof. apply (resize_zero_height 1024 world_initial). lia. Defined.

(** X8 for one movement while the cursor is free. *)
Lemma cursor_release_one_move :
  let events :=
    [ KeyEvent GLFW_KEY_M 0 GLFW_PRESS 0;
      CursorPosEvent (F64.of_Z 100) (F64.of_Z 700);
      KeyEvent GLFW_KEY_M 0 GLFW_RELEASE 0;
      KeyEvent GLFW_KEY_M 0 GLFW_PRESS 0 ] in
  win_cursor (window (after (glfwPollEvents events) world_captured))
  = GLFW_CURSOR_DISABLED
  /\ mouse_state (globals (after (glfwPollEvents events) world_captured))
     = mouse_state (globals world_captured)
  /\ issued (glfwPollEvents events) world_captured
     = [SetInputMode GLFW_CURSOR_NORMAL; SetInputMode GLFW_CURSOR_DISABLED].
Proof.
  apply (cursor_release_ignores_mouse
           [CursorPosEvent (F64.of_Z 100) (F64.of_Z 700)] 0 0
           world_captured);
    reflexivity.
Defined.

(** X9 when the cursor first arrives at the centre of the window. *)
Lemma first_movement_at_centre :
  let xpos := F64.of_Z 512 in
  let ypos := F64.of_Z 384 in
  mouse_state (globals (after (mouseCallback xpos ypos) world_captured))
  = (false, double_to_float xpos, double_to_float ypos,
     yaw (globals world_captured), pitch (globals world_captured),
     Camera_rotate (myCamera (globals world_captured))
                   (pitch (globals world_captured))
                   (yaw (globals world_captured)))
  /\ head (issued (mouseCallback xpos ypos) world_captured)
     = Some (CameraRotate (pitch (globals world_captured))
                          (yaw (globals world_captured))).
Proof.
  apply (first_movement_no_jump (F64.of_Z 512) (F64.of_Z 384)
                                world_captured);
    [discriminate | reflexivity ..].
Defined.

(** X10 at the initial angles, with the four keys down. *)
Lemma opposite_keys_cancel_initial :
  lightAngle (globals (after processInput world_opposite_keys)) = F32.of_Z 0
  /\ angle (globals (after processInput world_opposite_keys)) = F32.of_Z 0.
Proof.
  assert (Hn : - 2 ^ 24 < 0 <= 2 ^ 24) by lia.
  split;
    [ apply (proj1 (opposite_keys_cancel 0 world_opposite_keys Hn))
    | apply (proj2 (opposite_keys_cancel 0 world_opposite_keys Hn)) ];
    reflexivity.
Defined.


End Examples.
